(** * plugins/anno-vep.c: adding a tag to the CSQ field of VEP-annotated VCFs

    A shallow embedding of the plugin.  Text (C strings, lines of the
    mapping file, INFO values) is [string]: the bytes before the terminating
    NUL; the mapping file is a text file, free of NUL bytes, so the length
    of a line is the count [getline] returned.  C [int] values that can be
    negative are [Z]; sizes and indices are [nat].  The counters of the
    program ([nrecords], [i], [cols->n]) stay far below 2^31 on any table
    that fits in memory, so no wrap-around is written out for them; the
    [int] product [1024 * cols_tr->n] of line 155 does leave the range of
    [int] on a long field, and its wrap-around is written out
    ([AnnoVep.buffer_size]).  Allocations other than the one [realloc]
    that [init] checks and the [calloc] of line 155 are taken to succeed,
    as the code takes them. *)

From Stdlib Require Import ZArith Ascii String List Lia.
From stdpp Require Import base list strings gmap.

(** ** C library string primitives *)

Module Libc.

Definition tab : ascii := "009"%char.
Definition newline : ascii := "010"%char.
Definition dquote : ascii := "034"%char.

Definition strlen (s : string) : nat := String.length s.

(** The character of [s] at index [i], [None] past the terminator. *)
Definition char_at (s : string) (i : nat) : option ascii := String.get i s.

(** [s + n]: the string that starts [n] bytes into [s]. *)
Fixpoint advance (n : nat) (s : string) : string :=
  match n, s with
  | 0, _ => s
  | S n', String _ s' => advance n' s'
  | S _, EmptyString => EmptyString
  end.

(** [s[n] = 0]: a NUL stored at index [n] cuts the string there. *)
Fixpoint set_nul (n : nat) (s : string) : string :=
  match n, s with
  | 0, _ => EmptyString
  | S n', String c s' => String c (set_nul n' s')
  | S _, EmptyString => EmptyString
  end.

(** [strcmp]: the difference of the first two bytes that differ, read as
    unsigned char; the terminator counts as byte 0. *)
Definition byte (c : ascii) : Z := Z.of_nat (nat_of_ascii c).

Fixpoint strcmp (a b : string) : Z :=
  match a, b with
  | EmptyString, EmptyString => 0
  | EmptyString, String d _ => (0 - byte d)
  | String c _, EmptyString => byte c
  | String c a', String d b' =>
      if Ascii.eqb c d then strcmp a' b' else (byte c - byte d)
  end%Z.

Definition tolower (c : ascii) : ascii :=
  let k := nat_of_ascii c in
  if (65 <=? k) && (k <=? 90) then ascii_of_nat (k + 32) else c.

(** [strcasecmp]: [strcmp] on the lower-cased bytes. *)
Fixpoint strcasecmp (a b : string) : Z :=
  match a, b with
  | EmptyString, EmptyString => 0
  | EmptyString, String d _ => (0 - byte (tolower d))
  | String c _, EmptyString => byte (tolower c)
  | String c a', String d b' =>
      if Ascii.eqb (tolower c) (tolower d) then strcasecmp a' b'
      else (byte (tolower c) - byte (tolower d))
  end%Z.

(** [strcat] without a bound, for destinations the code sizes exactly. *)
Definition strcat (dst src : string) : string := dst +:+ src.

Fixpoint mem (c : ascii) (set : string) : bool :=
  match set with
  | EmptyString => false
  | String d set' => Ascii.eqb c d || mem c set'
  end.

(** [strspn s accept]: length of the leading run of bytes of [accept]. *)
Fixpoint strspn (s accept : string) : nat :=
  match s with
  | EmptyString => 0
  | String c s' => if mem c accept then S (strspn s' accept) else 0
  end.

(** [strcspn s reject]: length of the leading run of bytes not in [reject]. *)
Fixpoint strcspn (s reject : string) : nat :=
  match s with
  | EmptyString => 0
  | String c s' => if mem c reject then 0 else S (strcspn s' reject)
  end.

(** [strtok]: the save pointer is passed and returned explicitly.
    [strtok(line, delim)] is [strtok line delim]; [strtok(NULL, delim)]
    is [strtok save delim] on the save pointer of the previous call. *)
Definition strtok (s delim : string) : option string * string :=
  let s1 := advance (strspn s delim) s in
  match s1 with
  | EmptyString => (None, s1)
  | String _ _ =>
      let n := strcspn s1 delim in
      let token := set_nul n s1 in
      match advance n s1 with
      | EmptyString => (Some token, EmptyString)
      | String _ save => (Some token, save)
      end
  end.

Fixpoint is_prefix (p s : string) : bool :=
  match p, s with
  | EmptyString, _ => true
  | String c p', String d s' => Ascii.eqb c d && is_prefix p' s'
  | String _ _, EmptyString => false
  end.

(** [strstr hay needle]: offset of the first occurrence, [None] for NULL. *)
Fixpoint strstr (hay needle : string) : option nat :=
  if is_prefix needle hay then Some 0
  else match hay with
       | EmptyString => None
       | String _ hay' => S <$> strstr hay' needle
       end.

(** [bsearch] as glibc writes it: halve [l, u) around [idx = (l + u) / 2].
    The interval shrinks at every turn, so [fuel] above [u - l] is never
    used up (lemma [bsearch_loop_fuel]). *)
Fixpoint bsearch_loop {A} (compar : A → A → Z) (k : A) (base : list A)
    (fuel l u : nat) : option A :=
  match fuel with
  | 0 => None
  | S fuel' =>
      if l <? u then
        let idx := (l + u) / 2 in
        match base !! idx with
        | None => None
        | Some p =>
            let comparison := compar k p in
            if (comparison <? 0)%Z then bsearch_loop compar k base fuel' l idx
            else if (0 <? comparison)%Z then
                   bsearch_loop compar k base fuel' (idx + 1) u
                 else Some p
        end
      else None
  end.

Definition bsearch {A} (k : A) (base : list A) (nmemb : nat)
    (compar : A → A → Z) : option A :=
  bsearch_loop compar k base (S nmemb) 0 nmemb.

(** [getline] over the whole stream: the successive lines, each with its
    newline when it has one; every line holds at least one byte, so each
    call returned a positive count, and the call after the last returns -1.
    This is what [getline] stores when it is given a buffer and the size of
    that buffer; see [AnnoVep.parse_file] for the lines on which the code
    does so. *)
Fixpoint getlines (fp : string) : list string :=
  match fp with
  | EmptyString => []
  | String c fp' =>
      if Ascii.eqb c newline then String c EmptyString :: getlines fp'
      else match getlines fp' with
           | [] => [String c EmptyString]
           | line :: lines => String c line :: lines
           end
  end.

End Libc.

(** ** The delimited-field splitter of cols.h *)

Module Cols.

(** Modelled from the spec: [cols_split] and [cols_t] of ../cols.h, which
    plugins/anno-vep.c includes and whose source is not part of the files at
    hand.  The splitter scans the line left to right and records one span per
    delimiter-separated token, empty tokens included: a line with [k]
    delimiters yields [k + 1] spans, and the empty line one empty span. *)
Fixpoint split (delim : ascii) (line : string) : list string :=
  match line with
  | EmptyString => [EmptyString]
  | String c line' =>
      if Ascii.eqb c delim then EmptyString :: split delim line'
      else match split delim line' with
           | [] => [String c EmptyString]
           | span :: spans => String c span :: spans
           end
  end.

(** Modelled from the spec: the FieldList, the spans in use and their count
    [n].  A reused list is overwritten by the new split (§3), so only the [n]
    spans of the latest split can be read. *)
Record cols_t := { n : nat; off : list string }.

(** Modelled from the spec: [cols_split(line, cols, delim)]; the list passed
    for reuse gives nothing to the result. *)
Definition cols_split (line : string) (cols : option cols_t) (delim : ascii)
    : cols_t :=
  let spans := split delim line in
  {| n := length spans; off := spans |}.

End Cols.

(** ** The slice of htslib the plugin calls *)

Module Hts.

(** A header line [##INFO=<ID=..,key=value,...>]: its keys and values in
    order, as [bcf_hrec_t] keeps them in [keys[]] and [vals[]]. *)
Definition bcf_hrec_t := list (string * string).

(** The header: its INFO lines by ID. *)
Record bcf_hdr_t := { hrec_info : gmap string bcf_hrec_t }.

(** A record: the fixed columns, and the string-valued INFO fields by tag. *)
Record bcf1_t := { fixed : list string; info : gmap string string }.

Definition bcf_hdr_get_hrec (hdr : bcf_hdr_t) (id : string)
    : option bcf_hrec_t :=
  hrec_info hdr !! id.

(** [bcf_hrec_find_key]: the index of the first key equal to [k] up to
    the case of letters (htslib compares with [strcasecmp]), -1 when the
    line has none. *)
Fixpoint bcf_hrec_find_key (hrec : bcf_hrec_t) (k : string) : Z :=
  match hrec with
  | [] => -1
  | (k', _) :: hrec' =>
      if (Libc.strcasecmp k k' =? 0)%Z then 0
      else let r := bcf_hrec_find_key hrec' k in
           if (r <? 0)%Z then r else (r + 1)%Z
  end.

(** [bcf_get_info_string(hdr, rec, tag, &dst, &ndst)]: -1 when the header
    does not define the tag, -3 when the record does not carry it; otherwise
    the value is copied to [dst] ([ndst] grows to hold it) and its length is
    returned.  On an error [dst] and [ndst] are left as they were.  (A tag
    that the header declares with another type gives -2, negative as well;
    the model keeps string-valued INFO fields only.) *)
Definition bcf_get_info_string (hdr : bcf_hdr_t) (rec : bcf1_t) (tag : string)
    (dst : string) (ndst : Z) : Z * string * Z :=
  match hrec_info hdr !! tag with
  | None => ((-1)%Z, dst, ndst)
  | Some _ =>
      match info rec !! tag with
      | None => ((-3)%Z, dst, ndst)
      | Some v =>
          let len := Z.of_nat (Libc.strlen v) in
          (len, v, if (ndst <? len + 1)%Z then (len + 1)%Z else ndst)
      end
  end.

(** [bcf_update_info_string]: the tag's value is replaced by the new text. *)
Definition bcf_update_info_string (hdr : bcf_hdr_t) (rec : bcf1_t)
    (tag : string) (v : string) : bcf1_t :=
  {| fixed := fixed rec; info := <[tag := v]> (info rec) |}.

End Hts.

(** ** The plugin *)

Module AnnoVep.
Import Libc Cols Hts.

(** What the C program does where the model stops: a read of a span that
    the latest split did not fill, a [strcat] past the end of the output
    buffer, a call through the NULL [header]. *)
Inductive fault := SpanOutOfRange | BufferOverflow | NullHeader.

Inductive outcome (A : Type) :=
  | Done (a : A)
  | Fault (f : fault).
Arguments Done {A} a.
Arguments Fault {A} f.

#[global] Instance outcome_ret : MRet outcome := λ A a, Done a.

#[global] Instance outcome_bind : MBind outcome := λ A B k m,
  match m with
  | Done a => k a
  | Fault f => Fault f
  end.

(** [typedef struct { char* key; char* value; } item;] *)
Record item := { key : string; value : string }.

Definition cmp (a b : item) : Z := strcmp (key a) (key b).

(** What the run depends on outside the program: the files that [fopen]
    can open, with their content, and whether [realloc] grants a request of
    a given size (the one allocation the code checks). *)
Record world := {
  fopen : string → option string;
  realloc_ok : nat → bool
}.

Definition alloc_steps : Z := 1000.

(** Lines 58-59 of [parse_file]:
    [if (line[line_len - 1] == '\n') line[line_len - 1] = 0;] on a line
    that [getline] returned, which holds at least one byte. *)
Definition chomp (line : string) : string :=
  let line_len := strlen line in
  match char_at line (line_len - 1) with
  | Some c => if Ascii.eqb c newline then set_nul (line_len - 1) line
              else line
  | None => line
  end.

(** The body of the [while (getline(..) > 0)] loop of [parse_file] on one
    line, over [alloc], [nrecords] and the array [*il_pt]. *)
Definition parse_line (st : Z * Z * list item) (line : string)
    : Z * Z * list item :=
  let '(alloc, nrecords, il) := st in
  let line := chomp line in
  let '(key, save) := strtok line (String tab EmptyString) in
  let '(value, _) := strtok save (String tab EmptyString) in
  match key, value with
  | Some key, Some value =>
      let nrecords := (nrecords + 1)%Z in
      let alloc := if (alloc <? nrecords)%Z then (alloc + alloc_steps)%Z
                   else alloc in
      (alloc, nrecords, il ++ [{| key := key; value := value |}])
  | _, _ => st
  end.

(** [int parse_file(const char* filename, item** il_pt)]: the count it
    returns and the array left in [*il_pt] ([il] on entry, untouched when
    the file cannot be opened).

    The function describes the code on the files that [Domain.text_file]
    singles out, and only on them.  Lines 51-57 hand [getline] a buffer of
    1024 bytes together with a size [n] that was never initialised: a line
    that fills more than the 1024 bytes, newline and terminator included,
    is stored past the end of the buffer whenever [n] happens to be large
    enough.  And [strlen] and [strtok] stop at the first NUL byte of a line
    where [getline] read on: on a file with NUL bytes the code sees less of
    a line than the [string] holds. *)
Definition parse_file (w : world) (filename : string) (il : list item)
    : Z * list item :=
  match fopen w filename with
  | None => (0%Z, il)
  | Some fp =>
      let '(_, nrecords, il) :=
        foldl parse_line (alloc_steps, 0%Z, []) (getlines fp) in
      (nrecords, il)
  end.

(** The globals of the plugin.  [header] is NULL until [init] stores the
    output header; the two field lists are NULL until their first split. *)
Record globals := {
  header : option bcf_hdr_t;
  csq_str : string;
  ncsq_str : Z;
  cols_tr : option cols_t;
  cols_csq : option cols_t;
  items : list item;
  nitems : Z
}.

Definition globals0 : globals :=
  {| header := None; csq_str := EmptyString; ncsq_str := 0;
     cols_tr := None; cols_csq := None; items := []; nitems := 0 |}.

(** [about()]: the usage text that [init] prints when [argc < 3]; what
    the plugin prints is not part of the model. *)
Definition about : string :=
  "A plugin to add tags to the CSQ field in VEP-annotated VCFs" +:+
  String newline
    ("Usage: bcftools +anno-vep <in.vcf> -- TAG_NAME TSV_FILE" +:+
     String newline EmptyString).

(** Lines 120-124 of [init]: when the description holds the marker, the
    byte before its terminator is overwritten by a NUL.  (When nothing
    follows the marker, [strlen(format) - 1] wraps to -1 and the byte is
    the last one of the marker: the same index.) *)
Definition strip_format (desc : string) : string :=
  match strstr desc "Format: " with
  | Some p =>
      let format := p + 8 in
      set_nul (format + strlen (advance format desc) - 1) desc
  | None => desc
  end.

(** Lines 128-130 of [init]: the three [strcat] calls. *)
Definition append_tag (desc new_tag : string) : string :=
  strcat (strcat (strcat desc "|") new_tag) (String dquote EmptyString).

(** The header-patching step of [init] on the Description value, when
    [realloc] succeeds. *)
Definition annotate (desc new_tag : string) : string :=
  append_tag (strip_format desc) new_tag.

Definition set_header (g : globals) (h : bcf_hdr_t) : globals :=
  {| header := Some h; csq_str := csq_str g; ncsq_str := ncsq_str g;
     cols_tr := cols_tr g; cols_csq := cols_csq g;
     items := items g; nitems := nitems g |}.

Definition set_items (g : globals) (il : list item) (cnt : Z) : globals :=
  {| header := header g; csq_str := csq_str g; ncsq_str := ncsq_str g;
     cols_tr := cols_tr g; cols_csq := cols_csq g;
     items := il; nitems := cnt |}.

(** [vals[ret] = v] in the CSQ line of the header. *)
Definition set_val (h : bcf_hdr_t) (hrec : bcf_hrec_t) (ret : nat)
    (v : string) : bcf_hdr_t :=
  match hrec !! ret with
  | Some (k, _) =>
      {| hrec_info := <["CSQ" := <[ret := (k, v)]> hrec]> (hrec_info h) |}
  | None => h
  end.

(** [int init(int argc, char** argv, bcf_hdr_t* in, bcf_hdr_t* out)]:
    the value returned and the globals afterwards.  [argc] is the length of
    [argv].  [header] points to [out], so the patched header is the one the
    globals hold. *)
Definition init (w : world) (argv : list string) (hin hout : bcf_hdr_t)
    (g : globals) : Z * globals :=
  let argc := Z.of_nat (length argv) in
  if (argc <? 3)%Z then ((-1)%Z, g)
  else
    let new_tag := nth 1 argv EmptyString in
    let filename := nth 2 argv EmptyString in
    let '(cnt, il) := parse_file w filename (items g) in
    let g := set_items g il cnt in
    if (cnt <? 1)%Z then ((-1)%Z, g)
    else
      let g := set_header g hout in
      match bcf_hdr_get_hrec hout "CSQ" with
      | None => (0%Z, g)
      | Some hrec =>
          let ret := bcf_hrec_find_key hrec "Description" in
          if (0 <=? ret)%Z then
            match hrec !! Z.to_nat ret with
            | None => (0%Z, g)
            | Some (_, desc) =>
                let desc := strip_format desc in
                if realloc_ok w (strlen desc + strlen new_tag + 3) then
                  (0%Z, set_header g
                          (set_val hout hrec (Z.to_nat ret)
                             (append_tag desc new_tag)))
                else
                  ((-1)%Z, set_header g
                             (set_val hout hrec (Z.to_nat ret) desc))
            end
          else (0%Z, g)
      end.

(** [strcat(new_csq_str, src)] into the buffer of [size] bytes: the bytes
    of both strings and the terminator must fit. *)
Definition strcat_buf (size : nat) (dst src : string) : outcome string :=
  if strlen dst + strlen src + 1 <=? size then Done (strcat dst src)
  else Fault BufferOverflow.

(** [cols->off[i]]: a span of the latest split, or a read past them. *)
Definition read_off (cols : cols_t) (i : nat) : outcome string :=
  if i <? n cols then
    match off cols !! i with
    | Some span => Done span
    | None => Fault SpanOutOfRange
    end
  else Fault SpanOutOfRange.

(** The body of the [for] loop of [process] (lines 159-172) for index [i],
    over [new_csq_str] and the global [cols_csq]. *)
Definition process_transcript (il : list item) (cnt : Z) (tr : cols_t)
    (size i : nat) (new_csq_str : string) (csq : option cols_t)
    : outcome (string * option cols_t) :=
  transcript ← read_off tr i;
  s ← strcat_buf size new_csq_str transcript;
  s ← strcat_buf size s "|";
  let csq := cols_split transcript csq "|"%char in
  gene_id ← read_off csq 4;
  s ← (if 0 <? strlen gene_id then
         let k := {| key := gene_id; value := EmptyString |} in
         match bsearch k il (Z.to_nat cnt) cmp with
         | Some found => strcat_buf size s (value found)
         | None => mret s
         end
       else mret s);
  s ← (if (Z.of_nat i <? Z.of_nat (n tr) - 1)%Z then strcat_buf size s ","
       else mret s);
  mret (s, Some csq).

(** [for (i = 0; i < cols_tr->n; i++)]: [todo] turns are left, the next
    one for index [i]. *)
Fixpoint process_loop (il : list item) (cnt : Z) (tr : cols_t)
    (size todo i : nat) (new_csq_str : string) (csq : option cols_t)
    : outcome (string * option cols_t) :=
  match todo with
  | 0 => mret (new_csq_str, csq)
  | S todo' =>
      r ← process_transcript il cnt tr size i new_csq_str csq;
      process_loop il cnt tr size todo' (S i) r.1 r.2
  end.

(** The value an [int], 32 bits in two's complement, holds after an
    operation whose exact result is [z].  (C leaves signed overflow
    undefined; the wrap is what the compiled product does.) *)
Definition int_wrap (z : Z) : Z :=
  ((z + 2147483648) mod 4294967296 - 2147483648)%Z.

(** Line 155, [calloc(1, strlen(csq_str) + 1024 * cols_tr->n)]: the bytes
    of the buffer that the [strcat] calls can write, for a field of [len]
    bytes with [n] transcripts.  The product is computed in [int] and
    wraps; the sum is computed in [size_t].  When the wrapped product is
    negative and larger in size than [len], the sum is a request of more
    than 2^64 - 2^31 bytes, beyond [PTRDIFF_MAX]: [calloc] returns NULL,
    the code does not look at it, and there is no byte to write to.  In the
    other cases the sum is [len] plus the wrapped product (a text in memory
    has fewer than 2^63 bytes), and [calloc] is taken to grant it. *)
Definition buffer_size (len n : nat) : nat :=
  let margin := int_wrap (1024 * Z.of_nat n) in
  let request := (Z.of_nat len + margin)%Z in
  if (0 <=? request)%Z then Z.to_nat request else 0.

(** The count of transcripts from which [1024 * cols_tr->n] no longer fits
    an [int]: 2^21. *)
Definition max_transcripts : Z := 2097152.

(** Lines 154-173 of [process]: the rewrite of the field text [field] with
    the table [il] of [cnt] entries; the new text and the two field lists.
    The buffer of line 155 is asked for with
    [strlen(csq_str) + 1024 * cols_tr->n] bytes.  [cols_split], whose
    source is not at hand, is taken to leave the length of [csq_str] as it
    was, so that [strlen(csq_str)] is the length of the field as it was
    read (§4.3, step 2: the original length plus a fixed margin per
    transcript). *)
Definition rewrite_csq (il : list item) (cnt : Z) (field : string)
    (tr0 csq0 : option cols_t) : outcome (string * cols_t * option cols_t) :=
  let tr := cols_split field tr0 ","%char in
  let size := buffer_size (strlen field) (n tr) in
  r ← process_loop il cnt tr size (n tr) 0 EmptyString csq0;
  mret (r.1, tr, r.2).

(** [bcf1_t* process(bcf1_t* rec)]: the record returned and the globals
    afterwards. *)
Definition process (g : globals) (rec : bcf1_t)
    : outcome (bcf1_t * globals) :=
  match header g with
  | None => Fault NullHeader
  | Some hdr =>
      let '(lcsq_str, dst, ndst) :=
        bcf_get_info_string hdr rec "CSQ" (csq_str g) (ncsq_str g) in
      if (0 <? lcsq_str)%Z then
        r ← rewrite_csq (items g) (nitems g) dst (cols_tr g) (cols_csq g);
        let '(new_csq_str, tr, csq) := r in
        mret (bcf_update_info_string hdr rec "CSQ" new_csq_str,
              {| header := header g; csq_str := dst; ncsq_str := ndst;
                 cols_tr := Some tr; cols_csq := csq;
                 items := items g; nitems := nitems g |})
      else
        mret (rec,
              {| header := header g; csq_str := dst; ncsq_str := ndst;
                 cols_tr := cols_tr g; cols_csq := cols_csq g;
                 items := items g; nitems := nitems g |})
  end.

End AnnoVep.

(** ** What the specification says, in its own words *)

Module Spec.
Import Libc Cols Hts AnnoVep.

(** §4.2: "trailing line terminators are stripped before tokenizing". *)
Fixpoint strip_newline (line : string) : string :=
  match line with
  | EmptyString => EmptyString
  | String c EmptyString =>
      if Ascii.eqb c newline then EmptyString else line
  | String c line' => String c (strip_newline line')
  end.

(** §4.2, §6: the non-empty tab-delimited tokens of a line. *)
Definition nonempty_tokens (line : string) : list string :=
  filter (λ t, t ≠ EmptyString) (split tab line).

(** §4.2, §6: a line with fewer than two non-empty tokens is skipped; one
    with at least two gives the pair of its first two, the rest ignored. *)
Definition usable_row (line : string) : option item :=
  match nonempty_tokens (strip_newline line) with
  | k :: v :: _ => Some {| key := k; value := v |}
  | _ => None
  end.

(** The rows of a mapping file, in the order of its lines. *)
Definition usable_rows (fp : string) : list item :=
  omap usable_row (getlines fp).

(** §8, table sort invariant: adjacent entries are in key order. *)
Definition sorted_by_key (entries : list item) : Prop :=
  ∀ i a b, entries !! i = Some a → entries !! (S i) = Some b →
    (cmp a b <= 0)%Z.


(** The Description value of the CSQ line that [init] patches, when the
    header has one. *)
Definition csq_description (h : bcf_hdr_t) : option string :=
  match bcf_hdr_get_hrec h "CSQ" with
  | None => None
  | Some hrec =>
      let ret := bcf_hrec_find_key hrec "Description" in
      if (0 <=? ret)%Z then snd <$> hrec !! Z.to_nat ret else None
  end.

(** The composite field of the record a run of [process] returns. *)
Definition csq_after (o : outcome (bcf1_t * globals))
    : outcome (option string) :=
  r ← o; mret (info r.1 !! "CSQ").

(** §4.3 step 3: what a transcript gains after its pipe: the value of the
    entry found for its key sub-field, nothing when the key is empty or
    not found. *)
Definition appended_value (il : list item) (cnt : Z) (transcript : string)
    : string :=
  match split "|" transcript !! 4 with
  | Some gene_id =>
      if 0 <? strlen gene_id then
        match bsearch {| key := gene_id; value := EmptyString |} il
                (Z.to_nat cnt) cmp with
        | Some found => value found
        | None => EmptyString
        end
      else EmptyString
  | None => EmptyString
  end.

(** Every value that the rewrite of [field] appends has at most [bound]
    bytes. *)
Definition appended_values_within (bound : nat) (il : list item) (cnt : Z)
    (field : string) : Prop :=
  ∀ transcript,
    transcript ∈ split "," field →
    strlen (appended_value il cnt transcript) ≤ bound.

(** §4.3 steps 3-4: each transcript, a pipe, its appended value, and a
    comma between transcripts. *)
Fixpoint rewritten (il : list item) (cnt : Z) (transcripts : list string)
    : string :=
  match transcripts with
  | [] => EmptyString
  | t :: ts =>
      t +:+ "|" +:+ appended_value il cnt t +:+
      match ts with
      | [] => EmptyString
      | _ :: _ => "," +:+ rewritten il cnt ts
      end
  end.

(** The room one transcript may take in the output buffer: its text, the
    pipe, a value of at most 1022 bytes, and the comma or the terminator. *)
Fixpoint room (spans : list string) : nat :=
  match spans with
  | [] => 0
  | t :: spans' => strlen t + 1024 + room spans'
  end.

End Spec.

(** ** Concrete runs *)

Module Examples.
Import Libc Cols Hts AnnoVep Spec.

Definition row (k v : string) : string :=
  k +:+ String tab (v +:+ String newline EmptyString).

Definition quoted (s : string) : string :=
  String dquote (s +:+ String dquote EmptyString).

(** A world with the one file map.tsv. *)
Definition world_of (content : string) (grant : bool) : world :=
  {| fopen := λ f, if String.eqb f "map.tsv" then Some content else None;
     realloc_ok := λ _, grant |}.

Definition argv3 : list string := ["anno-vep"; "TAG"; "map.tsv"].

Definition hdr_of (description : string) : bcf_hdr_t :=
  {| hrec_info :=
       {[ "CSQ" := [("ID", "CSQ"); ("Number", "."); ("Type", "String");
                    ("Description", description)] ]} |}.

(** A VEP header line, and one whose description has no "Format: ". *)
Definition hdr_vep : bcf_hdr_t :=
  hdr_of (quoted "Consequence annotations. Format: Allele|Consequence|IMPACT|SYMBOL|Gene").
Definition hdr_plain : bcf_hdr_t :=
  hdr_of (quoted "Consequence annotations").

Definition rec_of (csq : option string) : bcf1_t :=
  {| fixed := ["1"; "1000"; "."; "A"; "G"; "."; "PASS"];
     info := match csq with
             | Some v => {[ "CSQ" := v ]}
             | None => ∅
             end |}.

Definition file_gene1 : string := row "GENE1" "ANNOT".
Definition file_z : string := row "z" "ANNOT".
Definition file_unsorted : string := row "C" "3" +:+ row "B" "2" +:+ row "A" "1".

(** A row whose second column is empty, and one with a third column after
    the empty second one. *)
Definition file_empty_value : string := row "K" EmptyString.
Definition file_gap : string :=
  "K" +:+ String tab (String tab ("V" +:+ String newline EmptyString)).

(** The globals after a successful [init] on a world. *)
Definition started (content : string) : globals :=
  (init (world_of content true) argv3 hdr_vep hdr_vep globals0).2.

(** A value of 1023 bytes. *)
Definition long_value : string :=
  string_of_list_ascii (replicate 1023 "a"%char).

End Examples.

(** ** Bytes that a text is free of *)

Module Text.
Import Libc.

Definition nul : ascii := "000"%char.

(** The byte [c] does not occur in [s]. *)
Definition free_of (c : ascii) (s : string) : Prop :=
  mem c s = false.

End Text.

(** ** The inputs on which the model and the code agree *)

Module Domain.
Import Libc Cols Hts AnnoVep Spec Text.

(** The lines of a text, without their newlines: what lies between two
    newlines, before the first and after the last.  A text that ends in a
    newline has the empty text as its last piece. *)
Definition lines_of_text (fp : string) : list string :=
  split newline fp.

(** A mapping file that [parse_file] reads the way the model says: it holds
    no NUL byte, and each line fits the 1024 bytes of the line buffer with
    its newline and its terminator. *)
Definition text_file (fp : string) : Prop :=
  free_of nul fp ∧ Forall (λ t, strlen t + 2 ≤ 1024) (lines_of_text fp).

(** §4.2, §6, on a line without its newline: the pair of its first two
    non-empty tab-delimited tokens, none when it has fewer than two. *)
Definition row_of_line (t : string) : option item :=
  match nonempty_tokens t with
  | k :: v :: _ => Some {| key := k; value := v |}
  | _ => None
  end.

(** §4.2, §6: the rows of a mapping file, one for each line that has two
    such tokens, in the order of the lines. *)
Definition rows_of_text (fp : string) : list item :=
  omap row_of_line (lines_of_text fp).

(** A field of [k + 1] transcripts of five empty sub-fields each. *)
Fixpoint blanks (k : nat) : string :=
  match k with
  | 0 => "||||"
  | S k' => "||||," +:+ blanks k'
  end.

(** Fields of 2^21 and of 2^22 such transcripts. *)
Definition field_2_21 : string := blanks (Z.to_nat 2097151).
Definition field_2_22 : string := blanks (Z.to_nat 4194303).

(** A record whose composite field is [field], and globals with the output
    header set and the table [il]. *)
Definition rec_with (field : string) : bcf1_t :=
  {| fixed := []; info := {[ "CSQ" := field ]} |}.

Definition globals_with (hdr : bcf_hdr_t) (il : list item) : globals :=
  {| header := Some hdr; csq_str := EmptyString; ncsq_str := 0;
     cols_tr := None; cols_csq := None;
     items := il; nitems := Z.of_nat (length il) |}.

End Domain.

(** ** More concrete runs *)

Module Runs.
Import Libc Cols Hts AnnoVep Spec Examples Text.

(** A world with several files. *)
Definition world_files (files : list (string * string)) (grant : bool)
    : world :=
  {| fopen := λ f, (list_to_map files : gmap string string) !! f;
     realloc_ok := λ _, grant |}.

Definition file_sorted : string := row "A" "1" +:+ row "B" "2" +:+ row "C" "3".
Definition table_sorted : list item :=
  [ {| key := "A"; value := "1" |}; {| key := "B"; value := "2" |};
    {| key := "C"; value := "3" |} ].

Definition world_parts : world :=
  world_files [("a.tsv", row "A" "1"); ("b.tsv", row "B" "2");
               ("ab.tsv", row "A" "1" +:+ row "B" "2")] true.

(** A record with two INFO fields. *)
Definition rec_two : bcf1_t :=
  {| fixed := ["1"; "1000"; "."; "A"; "G"; "."; "PASS"];
     info := {[ "CSQ" := "T1|x|y|GENE1|z,T2|a|b||c"; "DP" := "14" ]} |}.

(** The header that [init] leaves from the VEP header and the tag TAG. *)
Definition hdr_tagged : bcf_hdr_t :=
  hdr_of (quoted "Consequence annotations. Format: Allele|Consequence|IMPACT|SYMBOL|Gene|TAG").

End Runs.

(** ** Facts about the string primitives *)

Section StringFacts.
Import Libc Cols.

Lemma strlen_strcat (a b : string) :
  strlen (strcat a b) = strlen a + strlen b.
Proof.
  unfold strcat, strlen. induction a as [|c a IH]; simpl; [done|].
  by rewrite IH.
Qed.

Lemma mem_single (c d : ascii) :
  mem c (String d EmptyString) = Ascii.eqb c d.
Proof. simpl. by rewrite orb_false_r. Qed.

(** The first span of a split is the text up to the first delimiter, and
    the other spans are the split of what follows that delimiter. *)
Lemma split_first (d : ascii) (s : string) :
  split d s =
    set_nul (strcspn s (String d EmptyString)) s ::
    match advance (strcspn s (String d EmptyString)) s with
    | EmptyString => []
    | String _ r => split d r
    end.
Proof.
  induction s as [|c s IH]; [done|].
  cbn [split strcspn]. rewrite mem_single.
  destruct (Ascii.eqb c d); [done|].
  rewrite IH. done.
Qed.

Lemma split_not_nil (d : ascii) (s : string) : split d s ≠ [].
Proof. by rewrite split_first. Qed.

(** A split has one span more than the line has delimiters, so the spans
    and the delimiters between them add up to the line. *)
Lemma split_length_sum (d : ascii) (s : string) :
  sum_list (strlen <$> split d s) + length (split d s) = strlen s + 1.
Proof.
  induction s as [|c s IH]; [done|].
  cbn [split]. destruct (Ascii.eqb c d).
  - cbn. unfold strlen in *. cbn. lia.
  - destruct (split d s) as [|t ts] eqn:E; [by apply split_not_nil in E|].
    cbn in *. unfold strlen in *. cbn. lia.
Qed.


(** [strtok] on the one-byte delimiter set returns the first non-empty span,
    and leaves a save pointer whose non-empty spans are the remaining ones. *)
Lemma strtok_nonempty_spans (d : ascii) (s : string) :
  filter (λ t, t ≠ EmptyString) (split d s) =
    match (strtok s (String d EmptyString)).1 with
    | None => []
    | Some t =>
        t :: filter (λ t, t ≠ EmptyString)
               (split d (strtok s (String d EmptyString)).2)
    end.
Proof.
  induction s as [|c s IH]; [done|].
  destruct (Ascii.eqb c d) eqn:E.
  - replace (strtok (String c s) (String d EmptyString))
      with (strtok s (String d EmptyString))
      by (unfold strtok; cbn [strspn mem]; rewrite E; done).
    cbn [split]. rewrite E, filter_cons_False by naive_solver. done.
  - assert (strcspn (String c s) (String d EmptyString)
            = S (strcspn s (String d EmptyString))) as Hn
      by (cbn [strcspn]; rewrite mem_single, E; done).
    assert (strspn (String c s) (String d EmptyString) = 0) as H0
      by (cbn [strspn]; rewrite mem_single, E; done).
    rewrite split_first. unfold strtok. rewrite H0. cbn [advance].
    rewrite !Hn. cbn [advance set_nul]. rewrite filter_cons_True by done.
    destruct (advance _ s); done.
Qed.

Lemma strtok_token_nonempty (s delim : string) (t : string) :
  (strtok s delim).1 = Some t → t ≠ EmptyString.
Proof.
  unfold strtok.
  destruct (advance (strspn s delim) s) as [|c s1] eqn:E; [done|].
  assert (mem c delim = false) as Hc.
  { clear -E. induction s as [|c' s IH]; [done|].
    cbn [strspn] in E. destruct (mem c' delim) eqn:E'.
    - cbn [advance] in E. auto.
    - cbn [advance] in E. congruence. }
  cbn [strcspn]. rewrite Hc. cbn [advance set_nul].
  destruct (advance _ s1); cbn; intros [= <-]; done.
Qed.

End StringFacts.

(** ** The table loader *)

Section TableLoad.
Import Libc Cols Hts AnnoVep Spec.

Lemma chomp_cons (c : ascii) (line : string) :
  line ≠ EmptyString → chomp (String c line) = String c (chomp line).
Proof.
  destruct line as [|c' l]; [done|intros _].
  unfold chomp, strlen, char_at.
  cbn [String.length Nat.sub]. rewrite Nat.sub_0_r.
  change (String.get (S (String.length l)) (String c (String c' l)))
    with (String.get (String.length l) (String c' l)).
  destruct (String.get _ _) as [x|]; [|done].
  destruct (Ascii.eqb x newline); done.
Qed.

(** Lines 58-59 strip exactly the trailing newline. *)
Lemma chomp_strip_newline (line : string) : chomp line = strip_newline line.
Proof.
  induction line as [|c line IH]; [done|].
  destruct line as [|c' l].
  - unfold chomp. cbn. destruct (Ascii.eqb c newline); done.
  - rewrite chomp_cons by done. rewrite IH. done.
Qed.

(** One turn of the loop adds the usable row of the line, if it has one. *)
Lemma parse_line_usable_row (alloc nrecords : Z) (il : list item)
    (line : string) :
  ∃ alloc',
    parse_line (alloc, nrecords, il) line =
      match usable_row line with
      | Some it => (alloc', (nrecords + 1)%Z, il ++ [it])
      | None => (alloc, nrecords, il)
      end.
Proof.
  unfold parse_line, usable_row, nonempty_tokens.
  rewrite chomp_strip_newline.
  rewrite (strtok_nonempty_spans tab (strip_newline line)).
  destruct (strtok (strip_newline line) _) as [[k|] save]; cbn [fst snd].
  2:{ destruct (strtok save _) as [v ?]. eauto. }
  rewrite (strtok_nonempty_spans tab save).
  destruct (strtok save _) as [[v|] save']; cbn [fst snd]; eauto.
Qed.

Lemma parse_lines_usable_rows (lines : list string) (alloc nrecords : Z)
    (il : list item) :
  ∃ alloc',
    foldl parse_line (alloc, nrecords, il) lines =
      (alloc', (nrecords + Z.of_nat (length (omap usable_row lines)))%Z,
       il ++ omap usable_row lines).
Proof.
  revert alloc nrecords il.
  induction lines as [|line lines IH]; intros alloc nrecords il.
  - exists alloc. cbn. by rewrite Z.add_0_r, app_nil_r.
  - cbn [foldl omap list_omap].
    destruct (parse_line_usable_row alloc nrecords il line) as [a1 ->].
    destruct (usable_row line) as [it|].
    + destruct (IH a1 (nrecords + 1)%Z (il ++ [it])) as [a2 ->].
      exists a2. cbn [length]. rewrite <- app_assoc. f_equal. f_equal. lia.
    + apply IH.
Qed.

(** [parse_file] on a file that opens returns its usable rows, in the
    order of the lines, and their number. *)
Lemma parse_file_opened (w : world) (filename : string) (il : list item)
    (fp : string) :
  fopen w filename = Some fp →
  parse_file w filename il =
    (Z.of_nat (length (usable_rows fp)), usable_rows fp).
Proof.
  intros Hfp. unfold parse_file, usable_rows. rewrite Hfp.
  destruct (parse_lines_usable_rows (getlines fp) alloc_steps 0 [])
    as [a ->].
  done.
Qed.

(** The lines that [getline] hands out, stripped by lines 58-59, are the
    pieces of the file between its newlines; the piece after a final
    newline is empty and [getline] hands out no line for it: the rows are
    the same. *)
Lemma usable_row_of_line (line : string) :
  usable_row line = Domain.row_of_line (strip_newline line).
Proof. done. Qed.

Lemma strip_newline_cons (c : ascii) (line : string) :
  line ≠ EmptyString →
  strip_newline (String c line) = String c (strip_newline line).
Proof. by destruct line. Qed.

Lemma getlines_lines_of_text (fp : string) :
  (getlines fp = [] ∧ Domain.lines_of_text fp = [EmptyString]) ∨
  (∃ line lines t ts,
     getlines fp = line :: lines ∧ Domain.lines_of_text fp = t :: ts ∧
     line ≠ EmptyString ∧ strip_newline line = t ∧
     omap usable_row lines = omap Domain.row_of_line ts).
Proof.
  unfold Domain.lines_of_text.
  induction fp as [|c fp IH]; [by left|right].
  cbn [getlines split]. destruct (Ascii.eqb c newline) eqn:Hc.
  - exists (String c EmptyString), (getlines fp), EmptyString,
      (split newline fp).
    repeat split; [done|by cbn; rewrite Hc|].
    destruct IH as [[-> ->]|(line & lines & t & ts & -> & -> & _ & Ht & Hts)];
      [done|].
    cbn [omap list_omap]. by rewrite usable_row_of_line, Ht, Hts.
  - destruct IH as [[-> ->]|(line & lines & t & ts & -> & -> & Hne & Ht & Hts)].
    + exists (String c EmptyString), [], (String c EmptyString), [].
      repeat split; [done|by cbn; rewrite Hc].
    + exists (String c line), lines, (String c t), ts.
      repeat split; [done|by rewrite strip_newline_cons, Ht|done].
Qed.

Lemma usable_rows_of_text (fp : string) :
  usable_rows fp = Domain.rows_of_text fp.
Proof.
  unfold usable_rows, Domain.rows_of_text.
  destruct (getlines_lines_of_text fp)
    as [[-> ->]|(line & lines & t & ts & -> & -> & _ & Ht & Hts)]; [done|].
  cbn [omap list_omap]. by rewrite usable_row_of_line, Ht, Hts.
Qed.

Lemma parse_file_unopened (w : world) (filename : string) (il : list item) :
  fopen w filename = None → parse_file w filename il = (0%Z, il).
Proof. intros Hfp. unfold parse_file. by rewrite Hfp. Qed.

(** Every token [strtok] hands out is non-empty, so is every key and every
    value of a usable row. *)
Lemma usable_row_nonempty (line : string) (it : item) :
  usable_row line = Some it →
  key it ≠ EmptyString ∧ value it ≠ EmptyString.
Proof.
  unfold usable_row, nonempty_tokens. intros H.
  destruct (filter _ _) as [|k [|v rest]] eqn:E; try done.
  injection H as <-. cbn.
  assert (k ∈ k :: v :: rest) as Hk by constructor.
  assert (v ∈ k :: v :: rest) as Hv by (do 2 constructor).
  rewrite <- E in Hk, Hv.
  apply list_elem_of_filter in Hk as [Hk _].
  apply list_elem_of_filter in Hv as [Hv _]. done.
Qed.

Lemma usable_rows_nonempty (fp : string) :
  Forall (λ it, key it ≠ EmptyString ∧ value it ≠ EmptyString)
    (usable_rows fp).
Proof.
  apply Forall_forall. intros it Hit.
  unfold usable_rows in Hit. apply list_elem_of_omap in Hit.
  destruct Hit as (line & _ & Hline).
  by apply usable_row_nonempty in Hline.
Qed.

End TableLoad.

(** ** The per-record rewrite *)

Section Rewrite.
Import Libc Cols Hts AnnoVep Spec.

(** The interval of [bsearch] shrinks at every turn: any fuel above its
    width gives the same answer. *)
Lemma bsearch_loop_fuel {A} (compar : A → A → Z) (k : A) (base : list A)
    (fuel fuel' l u : nat) :
  u - l < fuel → u - l < fuel' →
  bsearch_loop compar k base fuel l u = bsearch_loop compar k base fuel' l u.
Proof.
  revert fuel' l u.
  induction fuel as [|fuel IH]; intros fuel' l u Hf Hf'; [lia|].
  destruct fuel' as [|fuel']; [lia|].
  cbn [bsearch_loop].
  destruct (l <? u) eqn:Hlu; [|done].
  apply Nat.ltb_lt in Hlu.
  assert (l ≤ (l + u) / 2 < u) as Hidx.
  { split; [apply Nat.div_le_lower_bound | apply Nat.Div0.div_lt_upper_bound];
      lia. }
  destruct (base !! _) as [p|]; [|done].
  destruct (compar k p <? 0)%Z; [apply IH; lia|].
  destruct (0 <? compar k p)%Z; [apply IH; lia|done].
Qed.

(** What [bsearch] returns is an element of the array. *)
Lemma bsearch_loop_elem {A} (compar : A → A → Z) (k : A) (base : list A)
    (fuel l u : nat) (p : A) :
  bsearch_loop compar k base fuel l u = Some p → p ∈ base.
Proof.
  revert l u. induction fuel as [|fuel IH]; intros l u; [done|].
  cbn [bsearch_loop].
  destruct (l <? u); [|done].
  destruct (base !! _) as [q|] eqn:Hq; [|done].
  destruct (compar k q <? 0)%Z; [apply IH|].
  destruct (0 <? compar k q)%Z; [apply IH|].
  intros [= <-]. by eapply list_elem_of_lookup_2.
Qed.

Lemma strcat_buf_fits (size : nat) (dst src : string) :
  strlen dst + strlen src + 1 ≤ size →
  strcat_buf size dst src = Done (strcat dst src).
Proof.
  intros H. unfold strcat_buf.
  destruct (Nat.leb_spec (strlen dst + strlen src + 1) size); [done|lia].
Qed.

Lemma strcat_buf_overflows (size : nat) (dst src : string) :
  size < strlen dst + strlen src + 1 →
  strcat_buf size dst src = Fault BufferOverflow.
Proof.
  intros H. unfold strcat_buf.
  destruct (Nat.leb_spec (strlen dst + strlen src + 1) size); [lia|done].
Qed.

Lemma read_off_done (cols : cols_t) (i : nat) (span : string) :
  read_off cols i = Done span → i < n cols ∧ off cols !! i = Some span.
Proof.
  unfold read_off. destruct (Nat.ltb_spec i (n cols)); [|done].
  destruct (off cols !! i); [|done]. by intros [= <-].
Qed.

Lemma read_off_fault (cols : cols_t) (i : nat) (f : fault) :
  read_off cols i = Fault f → f = SpanOutOfRange.
Proof.
  unfold read_off. destruct (i <? n cols); [|congruence].
  destruct (off cols !! i); congruence.
Qed.

Lemma room_split (d : ascii) (s : string) :
  room (split d s) ≤ strlen s + 1024 * length (split d s).
Proof.
  pose proof (split_length_sum d s) as H.
  assert (∀ l : list string,
    room l = sum_list (strlen <$> l) + 1024 * length l) as Hroom.
  { induction l as [|t l IH]; [done|]. cbn. lia. }
  rewrite Hroom.
  destruct (split d s) eqn:E; [by apply split_not_nil in E|].
  cbn [length] in *. lia.
Qed.

(** One turn of the loop, when the value it appends (if any) has at most
    1022 bytes: every [strcat] fits as long as the room of the transcripts
    still to come is free, and the room of the later ones is free
    afterwards. *)
Lemma process_transcript_fits (il : list item) (cnt : Z) (tr : cols_t)
    (size i : nat) (buf : string) (csq : option cols_t) :
  (∀ t, off tr !! i = Some t → strlen (appended_value il cnt t) ≤ 1022) →
  n tr = length (off tr) →
  strlen buf + room (drop i (off tr)) ≤ size →
  match process_transcript il cnt tr size i buf csq with
  | Done r => strlen r.1 + room (drop (S i) (off tr)) ≤ size
  | Fault f => f = SpanOutOfRange
  end.
Proof.
  intros Hval Hn Hroom. unfold process_transcript.
  destruct (read_off tr i) as [t|f] eqn:Ht;
    [|by apply read_off_fault in Ht].
  apply read_off_done in Ht as [Hi Ht].
  cbn [mbind outcome_bind].
  rewrite (drop_S _ _ _ Ht) in Hroom. cbn [room] in Hroom.
  rewrite strcat_buf_fits by lia. cbn [mbind outcome_bind].
  rewrite strcat_buf_fits by (rewrite strlen_strcat; cbn; lia).
  cbn [mbind outcome_bind].
  destruct (read_off _ 4) as [gene_id|f] eqn:Hg.
  2:{ by apply read_off_fault in Hg. }
  apply read_off_done in Hg as [_ Hg]. cbn [cols_split off] in Hg.
  cbn [mbind outcome_bind].
  set (s1 := strcat (strcat buf t) "|").
  assert (strlen s1 = strlen buf + strlen t + 1) as Hs1
    by (unfold s1; rewrite !strlen_strcat; done).
  assert (∃ s2, (if 0 <? strlen gene_id
                 then match bsearch {| key := gene_id; value := EmptyString |}
                              il (Z.to_nat cnt) cmp with
                      | Some found => strcat_buf size s1 (value found)
                      | None => mret s1
                      end
                 else mret s1) = Done s2
                ∧ strlen s2 ≤ strlen s1 + 1022) as (s2 & -> & Hs2).
  { destruct (Nat.ltb_spec 0 (strlen gene_id)) as [Hne|_];
      [|exists s1; split; [done|lia]].
    destruct (bsearch _ _ _ _) as [found|] eqn:Hb;
      [|exists s1; split; [done|lia]].
    specialize (Hval t Ht). unfold appended_value in Hval.
    rewrite Hg, Hb in Hval.
    destruct (Nat.ltb_spec 0 (strlen gene_id)); [|lia].
    rewrite strcat_buf_fits by lia.
    eexists; split; [done|]. rewrite strlen_strcat. lia. }
  cbn [mbind outcome_bind].
  destruct (Z.of_nat i <? Z.of_nat (n tr) - 1)%Z eqn:Hlast.
  - apply Z.ltb_lt in Hlast.
    destruct (off tr !! S i) as [t'|] eqn:Ht'.
    2:{ apply lookup_ge_None in Ht'. lia. }
    rewrite (drop_S _ _ _ Ht') in Hroom |- *. cbn [room] in Hroom |- *.
    rewrite strcat_buf_fits by (cbn; lia).
    cbn [mbind outcome_bind mret outcome_ret fst].
    rewrite strlen_strcat. cbn [strlen String.length]. lia.
  - cbn [mbind outcome_bind mret outcome_ret fst]. lia.
Qed.

(** The whole loop: no [strcat] leaves the buffer. *)
Lemma process_loop_fits (il : list item) (cnt : Z) (tr : cols_t)
    (size todo i : nat) (buf : string) (csq : option cols_t) :
  (∀ t, t ∈ off tr → strlen (appended_value il cnt t) ≤ 1022) →
  n tr = length (off tr) →
  strlen buf + room (drop i (off tr)) ≤ size →
  process_loop il cnt tr size todo i buf csq ≠ Fault BufferOverflow.
Proof.
  intros Hval Hn. revert i buf csq.
  induction todo as [|todo IH]; intros i buf csq Hroom; [done|].
  cbn [process_loop].
  assert (match process_transcript il cnt tr size i buf csq with
          | Done r => strlen r.1 + room (drop (S i) (off tr)) ≤ size
          | Fault f => f = SpanOutOfRange
          end) as Hstep.
  { apply process_transcript_fits; [|done|done].
    intros t Ht. apply Hval. by eapply list_elem_of_lookup_2. }
  destruct (process_transcript il cnt tr size i buf csq) as [r|f].
  - cbn [mbind outcome_bind]. by apply IH.
  - cbn [mbind outcome_bind]. by subst f.
Qed.

(** Below 2^21 transcripts the product of line 155 is exact, and the
    buffer has the bytes that the code asks for. *)
Lemma int_wrap_small (z : Z) :
  (-2147483648 <= z < 2147483648)%Z → int_wrap z = z.
Proof.
  intros Hz. unfold int_wrap. rewrite Z.mod_small by lia. lia.
Qed.

Lemma buffer_size_exact (len k : nat) :
  (Z.of_nat k < max_transcripts)%Z → buffer_size len k = len + 1024 * k.
Proof.
  unfold max_transcripts, buffer_size. intros Hk.
  rewrite int_wrap_small by lia.
  destruct (Z.leb_spec 0 (Z.of_nat len + 1024 * Z.of_nat k)); lia.
Qed.

Lemma rewrite_csq_fits (il : list item) (cnt : Z) (field : string)
    (tr0 csq0 : option cols_t) :
  (Z.of_nat (length (split "," field)) < max_transcripts)%Z →
  appended_values_within 1022 il cnt field →
  rewrite_csq il cnt field tr0 csq0 ≠ Fault BufferOverflow.
Proof.
  intros Hfew Hval. unfold rewrite_csq.
  rewrite buffer_size_exact by done.
  pose proof (process_loop_fits il cnt (cols_split field tr0 ",")
    (strlen field + 1024 * n (cols_split field tr0 ","))
    (n (cols_split field tr0 ",")) 0 EmptyString csq0 Hval eq_refl) as H.
  destruct (process_loop _ _ _ _ _ _ _ _) as [r|f]; [done|].
  cbn [mbind outcome_bind]. intros [= ->]. apply H; [|done].
  cbn [cols_split off n drop strlen String.length Nat.add].
  apply room_split.
Qed.

(** A bound on every value of the table bounds the values appended. *)
Lemma table_values_within (bound : nat) (il : list item) (cnt : Z)
    (field : string) :
  Forall (λ it, strlen (value it) ≤ bound) il →
  appended_values_within bound il cnt field.
Proof.
  intros Hil t _. unfold appended_value.
  destruct (split "|" t !! 4) as [gene_id|]; [|cbn; lia].
  destruct (0 <? strlen gene_id); [|cbn; lia].
  destruct (bsearch _ _ _ _) as [found|] eqn:Hb; [|cbn; lia].
  apply bsearch_loop_elem in Hb.
  rewrite Forall_forall in Hil. apply (Hil _ Hb).
Qed.

(** [process] rewrites only the text that the record carries. *)
Lemma get_info_positive (hdr : bcf_hdr_t) (rec : bcf1_t) (dst0 : string)
    (ndst0 : Z) (lcsq_str : Z) (dst : string) (ndst : Z) :
  bcf_get_info_string hdr rec "CSQ" dst0 ndst0 = (lcsq_str, dst, ndst) →
  (0 < lcsq_str)%Z →
  info rec !! "CSQ" = Some dst.
Proof.
  unfold bcf_get_info_string.
  destruct (hrec_info hdr !! "CSQ"); [|intros [= <- _ _]; lia].
  destruct (info rec !! "CSQ"); [|intros [= <- _ _]; lia].
  by intros [= _ <- _].
Qed.

Lemma strcat_assoc (a b c : string) :
  strcat (strcat a b) c = strcat a (strcat b c).
Proof.
  unfold strcat. induction a as [|x a IH]; [done|].
  change (String x ((a +:+ b) +:+ c) = String x (a +:+ b +:+ c)).
  by rewrite IH.
Qed.

Lemma strcat_empty_r (a : string) : strcat a EmptyString = a.
Proof.
  unfold strcat. induction a as [|x a IH]; [done|].
  change (String x (a +:+ EmptyString) = String x a). by rewrite IH.
Qed.

(** One turn of the loop on a transcript with at least five sub-fields. *)
Lemma process_transcript_appends (il : list item) (cnt : Z) (tr : cols_t)
    (size i : nat) (buf : string) (csq : option cols_t) (t : string) :
  off tr !! i = Some t →
  n tr = length (off tr) →
  5 ≤ length (split "|" t) →
  strlen (appended_value il cnt t) ≤ 1022 →
  strlen buf + room (drop i (off tr)) ≤ size →
  process_transcript il cnt tr size i buf csq =
    Done (strcat buf
            (t +:+ "|" +:+ appended_value il cnt t +:+
             (if bool_decide (S i < n tr) then "," else EmptyString)),
          Some (cols_split t csq "|")).
Proof.
  intros Ht Hn Hfive Hval Hroom. unfold process_transcript, read_off.
  assert (i < n tr) as Hi by (rewrite Hn; by eapply lookup_lt_Some).
  destruct (Nat.ltb_spec i (n tr)); [|lia]. rewrite Ht.
  cbn [mbind outcome_bind].
  rewrite (drop_S _ _ _ Ht) in Hroom. cbn [room] in Hroom.
  rewrite strcat_buf_fits by lia. cbn [mbind outcome_bind].
  rewrite strcat_buf_fits by (rewrite strlen_strcat; cbn; lia).
  cbn [mbind outcome_bind cols_split n off].
  destruct (Nat.ltb_spec 4 (length (split "|" t))); [|lia].
  unfold appended_value in *.
  destruct (split "|" t !! 4) as [gene_id|] eqn:Hg.
  2:{ apply lookup_ge_None in Hg. lia. }
  cbn [mbind outcome_bind].
  set (s1 := strcat (strcat buf t) "|").
  assert (strlen s1 = strlen buf + strlen t + 1) as Hs1
    by (unfold s1; rewrite !strlen_strcat; done).
  set (v := if 0 <? strlen gene_id
            then match bsearch {| key := gene_id; value := EmptyString |} il
                         (Z.to_nat cnt) cmp with
                 | Some found => value found
                 | None => EmptyString
                 end
            else EmptyString) in *.
  assert ((if 0 <? strlen gene_id
           then match bsearch {| key := gene_id; value := EmptyString |}
                        il (Z.to_nat cnt) cmp with
                | Some found => strcat_buf size s1 (value found)
                | None => mret s1
                end
           else mret s1) = Done (strcat s1 v)) as ->.
  { unfold v. destruct (0 <? strlen gene_id);
      [|by rewrite strcat_empty_r].
    destruct (bsearch _ _ _ _) as [found|]; [|by rewrite strcat_empty_r].
    unfold v in Hval. apply strcat_buf_fits. lia. }
  cbn [mbind outcome_bind].
  assert (strlen (strcat s1 v) = strlen s1 + strlen v) as Hs2
    by apply strlen_strcat.
  destruct (Z.ltb_spec (Z.of_nat i) (Z.of_nat (n tr) - 1)) as [Hlast|Hlast].
  - rewrite bool_decide_true by lia.
    destruct (off tr !! S i) as [t'|] eqn:Ht'.
    2:{ apply lookup_ge_None in Ht'. lia. }
    rewrite (drop_S _ _ _ Ht') in Hroom. cbn [room] in Hroom.
    rewrite strcat_buf_fits by (cbn; lia).
    cbn [mbind outcome_bind mret outcome_ret]. f_equal. f_equal.
    unfold s1. fold (strcat t ("|" +:+ v +:+ ",")).
    fold (strcat "|" (v +:+ ",")). fold (strcat v ",").
    by rewrite !strcat_assoc.
  - rewrite bool_decide_false by lia.
    cbn [mbind outcome_bind mret outcome_ret]. f_equal. f_equal.
    unfold s1. fold (strcat v EmptyString).
    fold (strcat "|" (strcat v EmptyString)).
    fold (strcat t (strcat "|" (strcat v EmptyString))).
    by rewrite strcat_empty_r, !strcat_assoc.
Qed.


(** The whole loop on transcripts of at least five sub-fields: the output
    gains, for each transcript still to come, its text, a pipe and its
    appended value, with commas in between. *)
Lemma process_loop_renders (il : list item) (cnt : Z) (tr : cols_t)
    (size todo i : nat) (buf : string) (csq : option cols_t) :
  n tr = length (off tr) →
  i + todo = n tr →
  Forall (λ t, 5 ≤ length (split "|" t)) (off tr) →
  Forall (λ t, strlen (appended_value il cnt t) ≤ 1022) (off tr) →
  strlen buf + room (drop i (off tr)) ≤ size →
  ∃ csq',
    process_loop il cnt tr size todo i buf csq =
      Done (strcat buf (rewritten il cnt (drop i (off tr))), csq').
Proof.
  intros Hn Htodo Hfive Hval. revert i buf csq Htodo.
  induction todo as [|todo IH]; intros i buf csq Htodo Hroom.
  - exists csq. cbn [process_loop].
    rewrite drop_ge by lia. cbn [rewritten]. by rewrite strcat_empty_r.
  - destruct (off tr !! i) as [t|] eqn:Ht.
    2:{ apply lookup_ge_None in Ht. lia. }
    rewrite Forall_forall in Hfive, Hval.
    assert (t ∈ off tr) as Hin by (by eapply list_elem_of_lookup_2).
    cbn [process_loop].
    rewrite (process_transcript_appends il cnt tr size i buf csq t)
      by auto.
    cbn [mbind outcome_bind fst snd].
    rewrite (drop_S _ _ _ Ht) in Hroom |- *. cbn [room] in Hroom.
    specialize (Hval t Hin).
    set (v := appended_value il cnt t) in *.
    edestruct (IH (S i)) as [csq' ->]; [lia| |].
    { rewrite strlen_strcat.
      fold (strcat v (if bool_decide (S i < n tr) then "," else EmptyString)).
      fold (strcat "|"
              (strcat v (if bool_decide (S i < n tr) then ","
                         else EmptyString))).
      fold (strcat t (strcat "|"
              (strcat v (if bool_decide (S i < n tr) then ","
                         else EmptyString)))).
      rewrite !strlen_strcat.
      destruct (bool_decide _); cbn [strlen String.length]; lia. }
    exists csq'. f_equal. f_equal.
    rewrite strcat_assoc. f_equal. cbn [rewritten]. fold v.
    destruct (drop (S i) (off tr)) as [|t' ts] eqn:Hdrop.
    + rewrite bool_decide_false.
      2:{ apply (f_equal length) in Hdrop.
          rewrite length_drop in Hdrop. cbn in Hdrop. lia. }
      cbn [rewritten].
      fold (strcat v EmptyString).
      fold (strcat "|" (strcat v EmptyString)).
      fold (strcat t (strcat "|" (strcat v EmptyString))).
      by rewrite !strcat_empty_r.
    + rewrite bool_decide_true.
      2:{ apply (f_equal length) in Hdrop.
          rewrite length_drop in Hdrop. cbn in Hdrop. lia. }
      set (rest := rewritten il cnt (t' :: ts)).
      fold (strcat v ","). fold (strcat "|" (strcat v ",")).
      fold (strcat t (strcat "|" (strcat v ","))).
      fold (strcat "," rest). fold (strcat v (strcat "," rest)).
      fold (strcat "|" (strcat v (strcat "," rest))).
      fold (strcat t (strcat "|" (strcat v (strcat "," rest)))).
      by rewrite !strcat_assoc.
Qed.

(** The rewrite law of §4.3: on a field of fewer than 2^21 transcripts
    that all have at least five sub-fields, with appended values of at most
    1022 bytes, the rewrite completes and every transcript gains exactly
    one slot. *)
Lemma rewrite_csq_renders (il : list item) (cnt : Z) (field : string)
    (tr0 csq0 : option cols_t) :
  (Z.of_nat (length (split "," field)) < max_transcripts)%Z →
  Forall (λ t, 5 ≤ length (split "|" t)) (split "," field) →
  appended_values_within 1022 il cnt field →
  ∃ csq,
    rewrite_csq il cnt field tr0 csq0 =
      Done (rewritten il cnt (split "," field),
            cols_split field tr0 ",", csq).
Proof.
  intros Hfew Hfive Hval. unfold rewrite_csq.
  rewrite buffer_size_exact by done.
  edestruct (process_loop_renders il cnt (cols_split field tr0 ",")
    (strlen field + 1024 * n (cols_split field tr0 ","))
    (n (cols_split field tr0 ",")) 0 EmptyString csq0) as [csq ->];
    try done.
  - apply Forall_forall. intros t Ht. by apply Hval.
  - cbn [cols_split off n drop strlen String.length Nat.add].
    apply room_split.
  - exists csq. done.
Qed.

(** A record without the field, whatever the header says of it. *)
Lemma get_info_absent (hdr : bcf_hdr_t) (rec : bcf1_t) (dst : string)
    (ndst : Z) :
  info rec !! "CSQ" = None →
  ∃ e, (e < 0)%Z ∧
    bcf_get_info_string hdr rec "CSQ" dst ndst = (e, dst, ndst).
Proof.
  intros Habs. unfold bcf_get_info_string. rewrite Habs.
  destruct (hrec_info hdr !! "CSQ"); eexists; (split; [|done]); lia.
Qed.

Lemma globals_eta (g : globals) :
  {| header := header g; csq_str := csq_str g; ncsq_str := ncsq_str g;
     cols_tr := cols_tr g; cols_csq := cols_csq g;
     items := items g; nitems := nitems g |} = g.
Proof. by destruct g. Qed.

End Rewrite.

(** ** Startup *)

Section Startup.
Import Libc Cols Hts AnnoVep Spec.


(** A key that [bcf_hrec_find_key] finds has a value: the [None] case of
    [vals[ret]] in [init] never runs. *)
Lemma bcf_hrec_find_key_lookup (hrec : bcf_hrec_t) (k : string) :
  (0 <= bcf_hrec_find_key hrec k)%Z →
  is_Some (hrec !! Z.to_nat (bcf_hrec_find_key hrec k)).
Proof.
  induction hrec as [|[k' v] hrec IH]; cbn [bcf_hrec_find_key]; [lia|].
  destruct (strcasecmp k k' =? 0)%Z; [by eexists|].
  destruct (Z.ltb_spec (bcf_hrec_find_key hrec k) 0) as [|Hge]; [lia|].
  intros _. rewrite Z2Nat.inj_add, Nat.add_1_r by lia. by apply IH.
Qed.

(** After a successful [init] the globals hold the header and the table
    with its count. *)
Lemma init_ok_globals (w : world) (argv : list string) (hin hout : bcf_hdr_t)
    (g0 g : globals) :
  init w argv hin hout g0 = (0%Z, g) →
  is_Some (header g) ∧ nitems g = Z.of_nat (length (items g)).
Proof.
  unfold init.
  destruct (Z.of_nat (length argv) <? 3)%Z; [done|].
  destruct (fopen w (nth 2 argv EmptyString)) as [fp|] eqn:Hfp.
  2:{ rewrite (parse_file_unopened _ _ _ Hfp). done. }
  rewrite (parse_file_opened _ _ _ _ Hfp).
  destruct (_ <? 1)%Z; [done|].
  destruct (bcf_hdr_get_hrec hout "CSQ") as [hrec|];
    [|intros [= <-]; cbn; eauto].
  destruct (0 <=? _)%Z; [|intros [= <-]; cbn; eauto].
  destruct (hrec !! _) as [[k desc]|]; [|intros [= <-]; cbn; eauto].
  destruct (realloc_ok w _); [|done].
  intros [= <-]; cbn; eauto.
Qed.

End Startup.

(** ** The claims of the specification *)

Section Claims.
Import Libc Cols Hts AnnoVep Spec Examples Text Domain.

(** C1 (the table is sorted by key after the load).  [parse_file] never
    sorts: on the file with the rows C, B, A it returns them in that order,
    the first two entries are out of key order, and the binary search of
    [process] then misses the key A although the table holds it. *)
Lemma C1_parse_file_leaves_file_order :
  parse_file (world_of file_unsorted true) "map.tsv" [] =
    (3%Z, [ {| key := "C"; value := "3" |}; {| key := "B"; value := "2" |};
            {| key := "A"; value := "1" |} ]) ∧
  ¬ sorted_by_key (parse_file (world_of file_unsorted true) "map.tsv" []).2 ∧
  bsearch {| key := "A"; value := EmptyString |}
    (parse_file (world_of file_unsorted true) "map.tsv" []).2 3 cmp = None.
Proof.
  split; [by vm_compute|]. split; [|by vm_compute].
  intros Hsorted.
  specialize (Hsorted 0 {| key := "C"; value := "3" |}
                        {| key := "B"; value := "2" |}).
  vm_compute in Hsorted. by apply Hsorted.
Qed.

(** C2, as the specification states it, fails: with the table GENE1 -> ANNOT
    the field T1|x|y|GENE1|z,T2|a|b||c is not rewritten to
    T1|x|y|GENE1|z|ANNOT,T2|a|b||c| (the key is the sub-field at index 4
    counted from 0, here z and c). *)
Lemma C2_counterexample :
  csq_after (process (started file_gene1)
                     (rec_of (Some "T1|x|y|GENE1|z,T2|a|b||c")))
    ≠ Done (Some "T1|x|y|GENE1|z|ANNOT,T2|a|b||c|").
Proof. by vm_compute. Qed.

(** C2, amended: for the field T1|x|y|GENE1|z,T2|a|b||c and the table
    GENE1 -> ANNOT, [process] produces T1|x|y|GENE1|z|,T2|a|b||c|: every
    transcript gains exactly one trailing slot, and both stay empty because
    the key sub-field is the fifth one (index 4 from 0: z and c), which the
    table does not hold.  With the table z -> ANNOT the slot of the first
    transcript is filled: T1|x|y|GENE1|z|ANNOT,T2|a|b||c|.  In general, on
    a field of fewer than 2^21 transcripts (the product of line 155 stays
    an [int]) that all have at least five sub-fields, and with appended
    values that fit the buffer, the rewrite gives each transcript exactly
    one more slot, filled exactly when the search finds its non-empty fifth
    sub-field. *)
Theorem C2_rewrite_arity :
  csq_after (process (started file_gene1)
                     (rec_of (Some "T1|x|y|GENE1|z,T2|a|b||c")))
    = Done (Some "T1|x|y|GENE1|z|,T2|a|b||c|") ∧
  csq_after (process (started file_z)
                     (rec_of (Some "T1|x|y|GENE1|z,T2|a|b||c")))
    = Done (Some "T1|x|y|GENE1|z|ANNOT,T2|a|b||c|") ∧
  (∀ il cnt field tr0 csq0,
     (Z.of_nat (length (split "," field)) < max_transcripts)%Z →
     Forall (λ t, 5 ≤ length (split "|" t)) (split "," field) →
     appended_values_within 1022 il cnt field →
     ∃ csq,
       rewrite_csq il cnt field tr0 csq0 =
         Done (rewritten il cnt (split "," field),
               cols_split field tr0 ",", csq)).
Proof.
  split; [by vm_compute|]. split; [by vm_compute|].
  apply rewrite_csq_renders.
Qed.

(** C2, amended, on the field and the table of the claim. *)
Lemma C2_rewrite_arity_witness :
  ∃ csq,
    rewrite_csq [{| key := "GENE1"; value := "ANNOT" |}] 1
      "T1|x|y|GENE1|z,T2|a|b||c" None None =
      Done ("T1|x|y|GENE1|z|,T2|a|b||c|",
            cols_split "T1|x|y|GENE1|z,T2|a|b||c" None ",", csq).
Proof.
  apply (proj2 (proj2 C2_rewrite_arity)
           [{| key := "GENE1"; value := "ANNOT" |}] 1%Z
           "T1|x|y|GENE1|z,T2|a|b||c" None None).
  - by vm_compute.
  - vm_compute. repeat constructor.
  - apply table_values_within.
    apply Forall_cons; split; [cbn; lia|constructor].
Defined.

(** C3 (a transcript with fewer than five sub-fields is treated as no
    match, without a read out of bounds).  The key is read as
    [cols_csq->off[4]] whatever [cols_csq->n] is: on the transcript T1|x|y
    the split fills three spans and the read goes past them.  The half of
    the claim on an empty key sub-field holds: T1|x|y|w| gains an empty
    slot. *)
Lemma C3_short_transcript_reads_past_spans :
  n (cols_split "T1|x|y" None "|") = 3 ∧
  process (started file_gene1) (rec_of (Some "T1|x|y"))
    = Fault SpanOutOfRange ∧
  csq_after (process (started file_gene1) (rec_of (Some "T1|x|y|w|")))
    = Done (Some "T1|x|y|w||").
Proof. repeat split; by vm_compute. Qed.

(** C4 (a description without the marker Format: is left unchanged).
    Only the removal of the closing quote is under [if (format)]; the three
    [strcat] calls are not.  The quoted description Consequence annotations
    has no marker, yet [init] leaves it in the header with the pipe, the
    tag TAG and one more quote after its own closing quote. *)
Lemma C4_description_without_marker_is_extended :
  strstr (quoted "Consequence annotations") "Format: " = None ∧
  annotate (quoted "Consequence annotations") "TAG"
    = quoted "Consequence annotations" +:+ "|TAG" +:+ String dquote EmptyString ∧
  (csq_description <$>
     header (init (world_of file_gene1 true) argv3 hdr_plain hdr_plain
                  globals0).2)
    = Some (Some (quoted "Consequence annotations" +:+ "|TAG"
                  +:+ String dquote EmptyString)).
Proof. repeat split; by vm_compute. Qed.

(** C5, as the specification states it, fails: for a record whose field is
    the empty string the hook does not produce the one-pipe field; the
    record keeps its empty field.  (Run on the empty text, the rewrite
    itself would read the fifth sub-field of a one-span split.) *)
Lemma C5_counterexample :
  csq_after (process (started file_gene1) (rec_of (Some EmptyString)))
    = Done (Some EmptyString) ∧
  csq_after (process (started file_gene1) (rec_of (Some EmptyString)))
    ≠ Done (Some "|") ∧
  rewrite_csq (items (started file_gene1)) 1 EmptyString None None
    = Fault SpanOutOfRange.
Proof. repeat split; by vm_compute. Qed.

(** C5, amended: for a record whose composite field is the empty string,
    [process] performs no rewrite ([lcsq_str > 0] fails) and returns the
    record as it is, its field still empty. *)
Theorem C5_empty_field_passes_through (g : globals) (hdr : bcf_hdr_t)
    (rec : bcf1_t) :
  header g = Some hdr →
  info rec !! "CSQ" = Some EmptyString →
  ∃ g', process g rec = Done (rec, g').
Proof.
  intros Hhdr Hcsq. unfold process, bcf_get_info_string.
  rewrite Hhdr, Hcsq.
  destruct (hrec_info hdr !! "CSQ"); cbn; eauto.
Qed.

(** C5, amended, on the started plugin and a record with an empty field. *)
Lemma C5_empty_field_witness :
  ∃ g', process (started file_gene1) (rec_of (Some EmptyString))
        = Done (rec_of (Some EmptyString), g').
Proof.
  eapply (C5_empty_field_passes_through (started file_gene1) _
            (rec_of (Some EmptyString))); [vm_compute|]; reflexivity.
Defined.



(** C7: during the load of a text file (no NUL byte, every line within
    the 1024 bytes of the line buffer) a line with fewer than two non-empty
    tab-delimited tokens leaves the table and the count as they are; a line
    with at least two adds exactly one entry, the pair of its first two
    tokens, whatever columns follow; so the table of a file that opens is
    the list of these pairs in the order of the lines, the lines being what
    lies between the newlines of the file, and the count their number. *)
Theorem C7_table_load_rows :
  (∀ st line,
     free_of nul line →
     length (nonempty_tokens (strip_newline line)) < 2 →
     parse_line st line = st) ∧
  (∀ alloc nrecords il line k v rest,
     free_of nul line →
     nonempty_tokens (strip_newline line) = k :: v :: rest →
     ∃ alloc',
       parse_line (alloc, nrecords, il) line =
         (alloc', (nrecords + 1)%Z, il ++ [{| key := k; value := v |}])) ∧
  (∀ w filename il fp,
     fopen w filename = Some fp →
     text_file fp →
     parse_file w filename il =
       (Z.of_nat (length (rows_of_text fp)), rows_of_text fp)).
Proof.
  split; [|split].
  - intros [[alloc nrecords] il] line _ Hfew.
    destruct (parse_line_usable_row alloc nrecords il line) as [a ->].
    unfold usable_row.
    destruct (nonempty_tokens _) as [|k [|v rest]]; [done|done|].
    cbn [length] in Hfew. lia.
  - intros alloc nrecords il line k v rest _ Htok.
    destruct (parse_line_usable_row alloc nrecords il line) as [a ->].
    unfold usable_row. rewrite Htok. eauto.
  - intros w filename il fp Hfp _.
    rewrite <- usable_rows_of_text. by apply parse_file_opened.
Qed.

(** C7 on the file with the one line K, two tabs, V. *)
Lemma C7_table_load_witness :
  parse_file (world_of file_gap true) "map.tsv" [] =
    (1%Z, [{| key := "K"; value := "V" |}]).
Proof.
  assert (text_file file_gap) as Htext.
  { split; [reflexivity|]. vm_compute. repeat constructor. }
  pose proof (proj2 (proj2 C7_table_load_rows) (world_of file_gap true)
                "map.tsv" [] file_gap eq_refl Htext) as H.
  vm_compute in H |- *. exact H.
Defined.

(** C8, as the specification states it, fails: no load produces an entry
    with an empty value.  The row with key K and an empty second column
    gives no entry, and when a third column V follows, the entry (K, V). *)
Lemma C8_counterexample :
  parse_file (world_of file_empty_value true) "map.tsv" [] = (0%Z, []) ∧
  parse_file (world_of file_gap true) "map.tsv" []
    = (1%Z, [{| key := "K"; value := "V" |}]) ∧
  ¬ ∃ w filename k,
      {| key := k; value := EmptyString |} ∈ (parse_file w filename []).2.
Proof.
  split; [by vm_compute|]. split; [by vm_compute|].
  intros (w & filename & k & Hin).
  destruct (fopen w filename) as [fp|] eqn:Hfp.
  - rewrite (parse_file_opened _ _ _ _ Hfp) in Hin. cbn [snd] in Hin.
    pose proof (usable_rows_nonempty fp) as Hne.
    rewrite Forall_forall in Hne. by destruct (Hne _ Hin).
  - rewrite (parse_file_unopened _ _ _ Hfp) in Hin. cbn in Hin.
    by apply not_elem_of_nil in Hin.
Qed.

(** C8, amended: every entry of the lookup table has a non-empty key and a
    non-empty value; a row whose second column is empty gives an entry only
    if a later column is non-empty, and that column is its value. *)
Theorem C8_table_values_nonempty (w : world) (filename : string) :
  Forall (λ it, key it ≠ EmptyString ∧ value it ≠ EmptyString)
    (parse_file w filename (items globals0)).2.
Proof.
  destruct (fopen w filename) as [fp|] eqn:Hfp.
  - rewrite (parse_file_opened _ _ _ _ Hfp). apply usable_rows_nonempty.
  - rewrite (parse_file_unopened _ _ _ Hfp). constructor.
Qed.

(** C9: for every record that does not carry the composite field,
    [process] returns the record as it is; nothing is rewritten and nothing
    is written back (the globals are unchanged too). *)
Theorem C9_absent_field_passes_through (g : globals) (hdr : bcf_hdr_t)
    (rec : bcf1_t) :
  header g = Some hdr →
  info rec !! "CSQ" = None →
  process g rec = Done (rec, g).
Proof.
  intros Hhdr Habs. unfold process. rewrite Hhdr.
  destruct (get_info_absent hdr rec (csq_str g) (ncsq_str g) Habs)
    as (e & He & ->).
  destruct (Z.ltb_spec 0 e); [lia|].
  cbn. rewrite <- Hhdr. by rewrite globals_eta.
Qed.

(** C9 on the started plugin and a record without the field. *)
Lemma C9_absent_field_witness :
  process (started file_gene1) (rec_of None)
    = Done (rec_of None, started file_gene1).
Proof.
  eapply (C9_absent_field_passes_through (started file_gene1) _
            (rec_of None)); [vm_compute|]; reflexivity.
Defined.

End Claims.

(** ** The order of the keys and the binary search *)

Section Order.
Import Libc Cols Hts AnnoVep Spec Text.

Lemma byte_inj (c d : ascii) : byte c = byte d → c = d.
Proof.
  unfold byte. intros H. apply Nat2Z.inj in H.
  rewrite <- (ascii_nat_embedding c), <- (ascii_nat_embedding d).
  by rewrite H.
Qed.

Lemma byte_nonneg (c : ascii) : (0 <= byte c)%Z.
Proof. unfold byte. lia. Qed.

Lemma byte_zero (c : ascii) : byte c = 0%Z → c = nul.
Proof. intros H. by apply byte_inj. Qed.

Lemma free_of_cons (c x : ascii) (s : string) :
  free_of c (String x s) ↔ c ≠ x ∧ free_of c s.
Proof.
  unfold free_of. cbn [mem].
  destruct (Ascii.eqb_spec c x) as [->|Hne]; cbn [orb].
  - split; [done|]. by intros [? _].
  - tauto.
Qed.

Lemma strcmp_refl (a : string) : strcmp a a = 0%Z.
Proof.
  induction a as [|c a IH]; [done|]. cbn [strcmp].
  by rewrite Ascii.eqb_refl.
Qed.

Lemma strcmp_swap (a b : string) : strcmp b a = (- strcmp a b)%Z.
Proof.
  revert b. induction a as [|c a IH]; intros [|d b]; cbn [strcmp]; try lia.
  rewrite (Ascii.eqb_sym d c).
  destruct (Ascii.eqb c d); [apply IH|lia].
Qed.

Lemma strcmp_zero (a b : string) :
  free_of nul a → free_of nul b → strcmp a b = 0%Z → a = b.
Proof.
  revert b. induction a as [|c a IH]; intros [|d b] Ha Hb; cbn [strcmp].
  - done.
  - apply free_of_cons in Hb as [Hd _]. intros H.
    destruct Hd. symmetry. apply byte_zero. lia.
  - apply free_of_cons in Ha as [Hc _]. intros H.
    destruct Hc. symmetry. by apply byte_zero.
  - apply free_of_cons in Ha as [_ Ha]. apply free_of_cons in Hb as [_ Hb].
    destruct (Ascii.eqb_spec c d) as [->|Hne].
    + intros H. f_equal. by apply IH.
    + intros H. destruct Hne. apply byte_inj. lia.
Qed.

Lemma strcmp_trans (a b c : string) :
  free_of nul a → free_of nul b →
  (strcmp a b <= 0)%Z → (strcmp b c <= 0)%Z → (strcmp a c <= 0)%Z.
Proof.
  revert b c. induction a as [|x a IH]; intros b c Ha Hb.
  - intros _ _. destruct c as [|z c]; cbn [strcmp]; [lia|].
    pose proof (byte_nonneg z). lia.
  - apply free_of_cons in Ha as [Hx Ha].
    destruct b as [|y b]; cbn [strcmp].
    { intros H. destruct Hx. symmetry. apply byte_zero.
      pose proof (byte_nonneg x). lia. }
    apply free_of_cons in Hb as [Hy Hb].
    destruct c as [|z c].
    { intros _ H. destruct Hy. symmetry. apply byte_zero.
      pose proof (byte_nonneg y). lia. }
    destruct (Ascii.eqb_spec x y) as [->|Hxy];
      destruct (Ascii.eqb_spec y z) as [->|Hyz].
    + by apply IH.
    + intros _ H. lia.
    + intros H _. destruct (Ascii.eqb_spec x z); [done|]. lia.
    + intros H1 H2. destruct (Ascii.eqb_spec x z) as [->|]; [|lia].
      assert (byte z = byte y) by lia. destruct Hxy. by apply byte_inj.
Qed.


(** Adjacent order gives the order of any two entries. *)
Lemma sorted_by_key_le (il : list item) :
  Forall (λ it, free_of nul (key it)) il →
  sorted_by_key il →
  ∀ d i a b, il !! i = Some a → il !! (i + d) = Some b → (cmp a b <= 0)%Z.
Proof.
  intros Hnul Hsorted. rewrite Forall_forall in Hnul.
  induction d as [|d IH]; intros i a b Ha Hb.
  - rewrite Nat.add_0_r in Hb. assert (a = b) as -> by congruence.
    unfold cmp. by rewrite strcmp_refl.
  - destruct (il !! (i + d)) as [m|] eqn:Hm.
    2:{ apply lookup_ge_None in Hm. apply lookup_lt_Some in Hb. lia. }
    replace (i + S d) with (S (i + d)) in Hb by lia.
    unfold cmp. apply (strcmp_trans _ (key m)).
    + apply Hnul. by eapply list_elem_of_lookup_2.
    + apply Hnul. by eapply list_elem_of_lookup_2.
    + by apply (IH i).
    + by apply (Hsorted (i + d)).
Qed.

(** What the search returns compares equal to the key looked for. *)
Lemma bsearch_loop_match {A} (compar : A → A → Z) (k : A) (base : list A)
    (fuel l u : nat) (p : A) :
  bsearch_loop compar k base fuel l u = Some p → compar k p = 0%Z.
Proof.
  revert l u. induction fuel as [|fuel IH]; intros l u; [done|].
  cbn [bsearch_loop].
  destruct (l <? u); [|done].
  destruct (base !! _) as [q|]; [|done].
  destruct (Z.ltb_spec (compar k q) 0); [apply IH|].
  destruct (Z.ltb_spec 0 (compar k q)); [apply IH|].
  intros [= <-]. lia.
Qed.

(** On a table in key order the search finds a key that the table holds. *)
Lemma bsearch_loop_finds (il : list item) (k : item) (fuel l u : nat) :
  Forall (λ it, free_of nul (key it)) il →
  free_of nul (key k) →
  sorted_by_key il →
  u ≤ length il →
  u - l < fuel →
  (∃ j p, l ≤ j < u ∧ il !! j = Some p ∧ cmp k p = 0%Z) →
  ∃ found, bsearch_loop cmp k il fuel l u = Some found.
Proof.
  intros Hnul Hk Hsorted. revert l u.
  induction fuel as [|fuel IH]; intros l u Hu Hfuel (j & p & Hj & Hp & Hkp);
    [lia|].
  cbn [bsearch_loop].
  destruct (Nat.ltb_spec l u); [|lia].
  assert (l ≤ (l + u) / 2 < u) as Hidx.
  { split; [apply Nat.div_le_lower_bound | apply Nat.Div0.div_lt_upper_bound];
      lia. }
  destruct (il !! ((l + u) / 2)) as [q|] eqn:Hq.
  2:{ apply lookup_ge_None in Hq. lia. }
  assert (key k = key p) as Hkey.
  { apply strcmp_zero; [done| |done].
    rewrite Forall_forall in Hnul. apply Hnul.
    by eapply list_elem_of_lookup_2. }
  destruct (Z.ltb_spec (cmp k q) 0) as [Hlt|Hge].
  - apply IH; [lia|lia|]. exists j, p. split; [|done].
    destruct (Nat.lt_ge_cases j ((l + u) / 2)) as [|Hle]; [lia|].
    pose proof (sorted_by_key_le il Hnul Hsorted (j - (l + u) / 2)
                  ((l + u) / 2) q p Hq) as Hqp.
    replace ((l + u) / 2 + (j - (l + u) / 2)) with j in Hqp by lia.
    specialize (Hqp Hp). unfold cmp in *. rewrite Hkey in Hlt.
    rewrite (strcmp_swap (key q) (key p)) in Hlt. lia.
  - destruct (Z.ltb_spec 0 (cmp k q)) as [Hgt|_]; [|by eexists].
    apply IH; [lia|lia|]. exists j, p. split; [|done].
    destruct (Nat.lt_ge_cases ((l + u) / 2) j) as [|Hle]; [lia|].
    pose proof (sorted_by_key_le il Hnul Hsorted ((l + u) / 2 - j)
                  j p q Hp) as Hpq.
    replace (j + ((l + u) / 2 - j)) with ((l + u) / 2) in Hpq by lia.
    specialize (Hpq Hq). unfold cmp in *. rewrite Hkey in Hgt. lia.
Qed.

End Order.

(** ** What the table holds *)

Section CleanTable.
Import Libc Cols Hts AnnoVep Spec Text.

Lemma free_of_empty (c : ascii) : free_of c EmptyString.
Proof. done. Qed.

(** A span of a split holds no delimiter, and no byte the line is free
    of. *)
Lemma split_spans_free (d : ascii) (s span : string) :
  span ∈ split d s →
  free_of d span ∧ ∀ c, free_of c s → free_of c span.
Proof.
  revert span. induction s as [|x s IH]; intros span Hin.
  - cbn in Hin. apply list_elem_of_singleton in Hin as ->. done.
  - cbn [split] in Hin. destruct (Ascii.eqb_spec x d) as [->|Hne].
    + apply elem_of_cons in Hin as [->|Hin].
      * split; [done|]. intros; apply free_of_empty.
      * destruct (IH _ Hin) as [H1 H2]. split; [done|].
        intros c Hc. apply free_of_cons in Hc as [_ Hc]. auto.
    + destruct (split d s) as [|t ts] eqn:E.
      * apply list_elem_of_singleton in Hin as ->.
        split; [apply free_of_cons; split; [congruence|done]|].
        intros c Hc. apply free_of_cons in Hc as [Hc _].
        apply free_of_cons. done.
      * apply elem_of_cons in Hin as [->|Hin].
        -- destruct (IH t) as [H1 H2]; [constructor|].
           split; [apply free_of_cons; split; [congruence|done]|].
           intros c Hc. apply free_of_cons in Hc as [Hc1 Hc2].
           apply free_of_cons. auto.
        -- destruct (IH span) as [H1 H2]; [by constructor|].
           split; [done|]. intros c Hc.
           apply free_of_cons in Hc as [_ Hc]. auto.
Qed.

Lemma strip_newline_free (c : ascii) (line : string) :
  free_of c line → free_of c (strip_newline line).
Proof.
  induction line as [|x line IH]; [done|].
  intros Hc. apply free_of_cons in Hc as [Hx Hc].
  cbn [strip_newline]. destruct line as [|y line].
  - destruct (Ascii.eqb x newline); [done|]. by apply free_of_cons.
  - apply free_of_cons. auto.
Qed.

(** A line that [getline] returns holds a newline only as its last byte. *)
Lemma getlines_strip_newline (fp line : string) :
  line ∈ getlines fp →
  free_of newline (strip_newline line) ∧ ∀ c, free_of c fp → free_of c line.
Proof.
  revert line. induction fp as [|x fp IH]; intros line Hin.
  - by apply not_elem_of_nil in Hin.
  - cbn [getlines] in Hin. destruct (Ascii.eqb_spec x newline) as [->|Hne].
    + apply elem_of_cons in Hin as [->|Hin].
      * split; [done|]. intros c Hc.
        apply free_of_cons in Hc as [Hc _]. by apply free_of_cons.
      * destruct (IH _ Hin) as [H1 H2]. split; [done|].
        intros c Hc. apply free_of_cons in Hc as [_ Hc]. auto.
    + destruct (getlines fp) as [|l ls] eqn:E.
      * apply list_elem_of_singleton in Hin as ->. split.
        -- cbn. destruct (Ascii.eqb_spec x newline); [done|].
           apply free_of_cons. split; [congruence|done].
        -- intros c Hc. apply free_of_cons in Hc as [Hc _].
           by apply free_of_cons.
      * apply elem_of_cons in Hin as [->|Hin].
        -- destruct (IH l) as [H1 H2]; [constructor|]. split.
           ++ cbn [strip_newline]. destruct l as [|y l].
              ** destruct (Ascii.eqb_spec x newline); [done|].
                 apply free_of_cons. split; [congruence|done].
              ** apply free_of_cons. split; [congruence|done].
           ++ intros c Hc. apply free_of_cons in Hc as [Hc1 Hc2].
              apply free_of_cons. auto.
        -- destruct (IH line) as [H1 H2]; [by constructor|].
           split; [done|]. intros c Hc.
           apply free_of_cons in Hc as [_ Hc]. auto.
Qed.

Lemma usable_row_spans (line : string) (it : item) :
  usable_row line = Some it →
  key it ∈ split tab (strip_newline line) ∧
  value it ∈ split tab (strip_newline line).
Proof.
  unfold usable_row, nonempty_tokens. intros H.
  destruct (filter _ _) as [|k [|v rest]] eqn:E; try done.
  injection H as <-. cbn.
  assert (k ∈ k :: v :: rest) as Hk by constructor.
  assert (v ∈ k :: v :: rest) as Hv by (do 2 constructor).
  rewrite <- E in Hk, Hv.
  apply list_elem_of_filter in Hk as [_ Hk].
  apply list_elem_of_filter in Hv as [_ Hv]. done.
Qed.

Lemma usable_rows_clean (fp : string) (it : item) (s : string) :
  it ∈ usable_rows fp →
  s = key it ∨ s = value it →
  free_of tab s ∧ free_of newline s ∧ ∀ c, free_of c fp → free_of c s.
Proof.
  intros Hit Hs. unfold usable_rows in Hit.
  apply list_elem_of_omap in Hit as (line & Hline & Hrow).
  apply usable_row_spans in Hrow as [Hk Hv].
  assert (s ∈ split tab (strip_newline line)) as Hspan
    by (by destruct Hs as [->| ->]).
  destruct (split_spans_free _ _ _ Hspan) as [Htab Hfree].
  destruct (getlines_strip_newline _ _ Hline) as [Hnl Hfp].
  split; [done|]. split; [by apply Hfree|].
  intros c Hc. apply Hfree, strip_newline_free. auto.
Qed.

(** [alloc] keeps up with [nrecords]: the store at [nrecords - 1] is
    inside the array, and [alloc] is the least multiple of 1000, at least
    1000, that holds [nrecords] entries. *)
Lemma parse_line_alloc (alloc nrecords : Z) (il : list item) (line : string) :
  (0 <= nrecords <= alloc)%Z →
  alloc = (1000 * Z.max 1 ((nrecords + 999) / 1000))%Z →
  let '(alloc', nrecords', il') := parse_line (alloc, nrecords, il) line in
  (0 <= nrecords' <= alloc')%Z ∧
  alloc' = (1000 * Z.max 1 ((nrecords' + 999) / 1000))%Z.
Proof.
  intros Hn Halloc. unfold parse_line.
  destruct (strtok (chomp line) _) as [[k|] save]; cbn.
  2:{ destruct (strtok save _); done. }
  destruct (strtok save _) as [[v|] ?]; [|done].
  unfold alloc_steps.
  destruct (Z.ltb_spec alloc (nrecords + 1)); split; try lia.
  - assert (nrecords = alloc) as -> by lia.
    rewrite Halloc at 2. Z.div_mod_to_equations. lia.
  - rewrite Halloc. Z.div_mod_to_equations. lia.
Qed.

End CleanTable.

Section LoadMore.
Import Libc Cols Hts AnnoVep Spec Text.

Lemma parse_lines_alloc (lines : list string) (alloc nrecords : Z)
    (il : list item) :
  (0 <= nrecords <= alloc)%Z →
  alloc = (1000 * Z.max 1 ((nrecords + 999) / 1000))%Z →
  let '(alloc', nrecords', il') :=
    foldl parse_line (alloc, nrecords, il) lines in
  (0 <= nrecords' <= alloc')%Z ∧
  alloc' = (1000 * Z.max 1 ((nrecords' + 999) / 1000))%Z.
Proof.
  revert alloc nrecords il.
  induction lines as [|line lines IH]; intros alloc nrecords il Hn Ha;
    [done|].
  cbn [foldl].
  pose proof (parse_line_alloc alloc nrecords il line Hn Ha) as Hstep.
  destruct (parse_line (alloc, nrecords, il) line) as [[a1 n1] il1].
  destruct Hstep as [H1 H2]. by apply IH.
Qed.

(** The stream after a complete line starts a new line. *)
Lemma getlines_app (a b : string) :
  getlines (a +:+ String newline b) =
    getlines (a +:+ String newline EmptyString) ++ getlines b.
Proof.
  induction a as [|x a IH]; [done|].
  change (getlines (String x (a +:+ String newline b)) =
          getlines (String x (a +:+ String newline EmptyString))
            ++ getlines b).
  cbn [getlines]. rewrite IH.
  destruct (Ascii.eqb x newline); [done|].
  destruct (getlines (a +:+ String newline EmptyString)) as [|l ls] eqn:E;
    [|done].
  exfalso. clear -E. induction a as [|y a IH].
  - done.
  - change (getlines (String y (a +:+ String newline EmptyString)) = [])
      in E.
    cbn [getlines] in E. destruct (Ascii.eqb y newline); [done|].
    destruct (getlines _); done.
Qed.

Lemma usable_rows_app (a b : string) :
  usable_rows (a +:+ String newline b) =
    usable_rows (a +:+ String newline EmptyString) ++ usable_rows b.
Proof. unfold usable_rows. by rewrite getlines_app, omap_app. Qed.

End LoadMore.

(** ** The header patch *)

Section HeaderPatch.
Import Libc Cols Hts AnnoVep Spec Text.

Lemma is_prefix_strlen (p s : string) :
  is_prefix p s = true → strlen p ≤ strlen s.
Proof.
  revert s. induction p as [|c p IH]; intros [|d s]; cbn; try done; try lia.
  intros [_ H]%andb_prop. apply IH in H. unfold strlen in *. lia.
Qed.

Lemma strstr_bound (hay needle : string) (p : nat) :
  strstr hay needle = Some p → p + strlen needle ≤ strlen hay.
Proof.
  revert p. induction hay as [|c hay IH]; intros p; cbn [strstr].
  - destruct (is_prefix needle EmptyString) eqn:E; [|done].
    intros [= <-]. by apply is_prefix_strlen in E.
  - destruct (is_prefix needle (String c hay)) eqn:E.
    + intros [= <-]. by apply is_prefix_strlen in E.
    + destruct (strstr hay needle) as [q|]; [|done].
      intros [= <-]. specialize (IH q eq_refl). cbn. unfold strlen in *. lia.
Qed.

Lemma strlen_advance (k : nat) (s : string) :
  strlen (advance k s) = strlen s - k.
Proof.
  revert s. induction k as [|k IH]; intros [|c s]; cbn; done.
Qed.

Lemma set_nul_last (body : string) (c : ascii) :
  set_nul (strlen body) (body +:+ String c EmptyString) = body.
Proof.
  induction body as [|x body IH]; [done|].
  change (String x (set_nul (strlen body)
                      (body +:+ String c EmptyString)) = String x body).
  by rewrite IH.
Qed.

Lemma strlen_snoc (body : string) (c : ascii) :
  strlen (body +:+ String c EmptyString) = S (strlen body).
Proof.
  fold (strcat body (String c EmptyString)).
  rewrite strlen_strcat. cbn. lia.
Qed.

(** With the marker in it, the description loses its last byte. *)
Lemma strip_format_marker (body : string) (c : ascii) (p : nat) :
  strstr (body +:+ String c EmptyString) "Format: " = Some p →
  strip_format (body +:+ String c EmptyString) = body.
Proof.
  intros Hp. unfold strip_format. rewrite Hp.
  apply strstr_bound in Hp. rewrite strlen_advance.
  rewrite strlen_snoc in *. cbn [strlen String.length] in Hp.
  replace (p + 8 + (S (strlen body) - (p + 8)) - 1) with (strlen body)
    by lia.
  apply set_nul_last.
Qed.



End HeaderPatch.

(** ** What a completed rewrite has done *)

Section RewriteMore.
Import Libc Cols Hts AnnoVep Spec Text.

Lemma strcat_buf_done (size : nat) (dst src r : string) :
  strcat_buf size dst src = Done r → r = strcat dst src.
Proof. unfold strcat_buf. destruct (_ <=? _); congruence. Qed.

Lemma strcat_buf_fault (size : nat) (dst src : string) (f : fault) :
  strcat_buf size dst src = Fault f → f = BufferOverflow.
Proof. unfold strcat_buf. destruct (_ <=? _); congruence. Qed.

(** A turn of the loop that completes was on a transcript of at least five
    sub-fields and has appended its text, the pipe, its value and, before
    the last transcript, the comma. *)
Lemma process_transcript_done (il : list item) (cnt : Z) (tr : cols_t)
    (size i : nat) (buf : string) (csq : option cols_t)
    (r : string * option cols_t) :
  process_transcript il cnt tr size i buf csq = Done r →
  ∃ t, off tr !! i = Some t ∧ 5 ≤ length (split "|" t) ∧
    r.1 = strcat buf
            (t +:+ "|" +:+ appended_value il cnt t +:+
             (if bool_decide (S i < n tr) then "," else EmptyString)).
Proof.
  unfold process_transcript.
  destruct (read_off tr i) as [t|] eqn:Ht; [|done].
  apply read_off_done in Ht as [Hi Ht]. cbn [mbind outcome_bind].
  destruct (strcat_buf size buf t) as [s0|] eqn:H0; [|done].
  apply strcat_buf_done in H0 as ->. cbn [mbind outcome_bind].
  destruct (strcat_buf size _ "|") as [s1|] eqn:H1; [|done].
  apply strcat_buf_done in H1 as ->. cbn [mbind outcome_bind].
  destruct (read_off _ 4) as [gene_id|] eqn:Hg; [|done].
  apply read_off_done in Hg as [H4 Hg]. cbn [cols_split n off] in H4, Hg.
  cbn [mbind outcome_bind].
  assert (∀ s2,
    (if 0 <? strlen gene_id
     then match bsearch {| key := gene_id; value := EmptyString |} il
                  (Z.to_nat cnt) cmp with
          | Some found =>
              strcat_buf size (strcat (strcat buf t) "|") (value found)
          | None => mret (strcat (strcat buf t) "|")
          end
     else mret (strcat (strcat buf t) "|")) = Done s2 →
    s2 = strcat (strcat (strcat buf t) "|") (appended_value il cnt t))
    as Hval.
  { intros s2. unfold appended_value. rewrite Hg.
    destruct (0 <? strlen gene_id).
    - destruct (bsearch _ _ _ _) as [found|].
      + apply strcat_buf_done.
      + intros [= <-]. by rewrite strcat_empty_r.
    - intros [= <-]. by rewrite strcat_empty_r. }
  destruct (if 0 <? strlen gene_id then _ else _) as [s2|]; [|done].
  rewrite (Hval s2 eq_refl). clear Hval. cbn [mbind outcome_bind].
  set (v := appended_value il cnt t).
  intros Hr. exists t. split; [done|]. split; [lia|].
  destruct (Z.ltb_spec (Z.of_nat i) (Z.of_nat (n tr) - 1)).
  - rewrite bool_decide_true by lia.
    destruct (strcat_buf size _ ",") as [s3|] eqn:H3; [|done].
    apply strcat_buf_done in H3 as ->. injection Hr as <-. cbn [fst].
    fold (strcat v ","). fold (strcat "|" (strcat v ",")).
    fold (strcat t (strcat "|" (strcat v ","))).
    by rewrite !strcat_assoc.
  - rewrite bool_decide_false by lia. injection Hr as <-. cbn [fst].
    fold (strcat v EmptyString).
    fold (strcat "|" (strcat v EmptyString)).
    fold (strcat t (strcat "|" (strcat v EmptyString))).
    by rewrite strcat_empty_r, !strcat_assoc.
Qed.

Lemma process_transcript_fault (il : list item) (cnt : Z) (tr : cols_t)
    (size i : nat) (buf : string) (csq : option cols_t) (f : fault) :
  process_transcript il cnt tr size i buf csq = Fault f →
  f = SpanOutOfRange ∨ f = BufferOverflow.
Proof.
  unfold process_transcript.
  destruct (read_off tr i) as [t|] eqn:Ht;
    [|intros [= <-]; left; by eapply read_off_fault].
  cbn [mbind outcome_bind].
  destruct (strcat_buf size buf t) as [s0|] eqn:H0;
    [|intros [= <-]; right; by eapply strcat_buf_fault].
  cbn [mbind outcome_bind].
  destruct (strcat_buf size s0 "|") as [s1|] eqn:H1;
    [|intros [= <-]; right; by eapply strcat_buf_fault].
  cbn [mbind outcome_bind].
  destruct (read_off _ 4) as [gene_id|] eqn:Hg;
    [|intros [= <-]; left; by eapply read_off_fault].
  cbn [mbind outcome_bind].
  destruct (if 0 <? strlen gene_id then _ else _) as [s2|f2] eqn:H2.
  - cbn [mbind outcome_bind].
    destruct (if (_ <? _)%Z then _ else _) as [s3|f3] eqn:H3; [done|].
    intros [= <-]. right.
    destruct (_ <? _)%Z; [by eapply strcat_buf_fault|done].
  - intros [= <-]. right.
    destruct (0 <? strlen gene_id); [|done].
    destruct (bsearch _ _ _ _); [by eapply strcat_buf_fault|done].
Qed.

Lemma process_loop_done (il : list item) (cnt : Z) (tr : cols_t)
    (size todo i : nat) (buf : string) (csq : option cols_t)
    (r : string * option cols_t) :
  n tr = length (off tr) →
  i + todo = n tr →
  process_loop il cnt tr size todo i buf csq = Done r →
  Forall (λ t, 5 ≤ length (split "|" t)) (drop i (off tr)) ∧
  r.1 = strcat buf (rewritten il cnt (drop i (off tr))).
Proof.
  intros Hn. revert i buf csq.
  induction todo as [|todo IH]; intros i buf csq Htodo.
  - cbn [process_loop]. intros [= <-]. rewrite drop_ge by lia.
    split; [constructor|]. cbn. by rewrite strcat_empty_r.
  - cbn [process_loop].
    destruct (process_transcript il cnt tr size i buf csq) as [r1|] eqn:H1;
      [|done].
    cbn [mbind outcome_bind]. intros Hloop.
    apply process_transcript_done in H1 as (t & Ht & Hfive & Hr1).
    apply IH in Hloop as [Hrest Hr]; [|lia].
    rewrite (drop_S _ _ _ Ht). split; [by constructor|].
    rewrite Hr, Hr1, strcat_assoc. f_equal. cbn [rewritten].
    set (v := appended_value il cnt t).
    destruct (drop (S i) (off tr)) as [|t' ts] eqn:Hdrop.
    + rewrite bool_decide_false.
      2:{ apply (f_equal length) in Hdrop.
          rewrite length_drop in Hdrop. cbn in Hdrop. lia. }
      cbn [rewritten].
      fold (strcat v EmptyString).
      fold (strcat "|" (strcat v EmptyString)).
      fold (strcat t (strcat "|" (strcat v EmptyString))).
      by rewrite !strcat_empty_r.
    + rewrite bool_decide_true.
      2:{ apply (f_equal length) in Hdrop.
          rewrite length_drop in Hdrop. cbn in Hdrop. lia. }
      set (rest := rewritten il cnt (t' :: ts)).
      fold (strcat v ","). fold (strcat "|" (strcat v ",")).
      fold (strcat t (strcat "|" (strcat v ","))).
      fold (strcat "," rest). fold (strcat v (strcat "," rest)).
      fold (strcat "|" (strcat v (strcat "," rest))).
      fold (strcat t (strcat "|" (strcat v (strcat "," rest)))).
      by rewrite !strcat_assoc.
Qed.

Lemma process_loop_fault (il : list item) (cnt : Z) (tr : cols_t)
    (size todo i : nat) (buf : string) (csq : option cols_t) (f : fault) :
  process_loop il cnt tr size todo i buf csq = Fault f →
  f = SpanOutOfRange ∨ f = BufferOverflow.
Proof.
  revert i buf csq. induction todo as [|todo IH]; intros i buf csq; [done|].
  cbn [process_loop].
  destruct (process_transcript il cnt tr size i buf csq) as [r1|f1] eqn:H1.
  - cbn [mbind outcome_bind]. apply IH.
  - intros [= <-]. by eapply process_transcript_fault.
Qed.

(** A rewrite that completes was on transcripts of at least five
    sub-fields, and its output is the rewritten field. *)
Lemma rewrite_csq_done (il : list item) (cnt : Z) (field : string)
    (tr0 csq0 : option cols_t) (r : string * cols_t * option cols_t) :
  rewrite_csq il cnt field tr0 csq0 = Done r →
  Forall (λ t, 5 ≤ length (split "|" t)) (split "," field) ∧
  r.1.1 = rewritten il cnt (split "," field).
Proof.
  unfold rewrite_csq.
  destruct (process_loop _ _ _ _ _ _ _ _) as [r1|] eqn:Hloop; [|done].
  cbn [mbind outcome_bind]. intros [= <-].
  apply process_loop_done in Hloop; [|done|cbn; lia]. done.
Qed.

Lemma rewrite_csq_fault (il : list item) (cnt : Z) (field : string)
    (tr0 csq0 : option cols_t) (f : fault) :
  rewrite_csq il cnt field tr0 csq0 = Fault f →
  f = SpanOutOfRange ∨ f = BufferOverflow.
Proof.
  unfold rewrite_csq.
  destruct (process_loop _ _ _ _ _ _ _ _) as [r1|f1] eqn:Hloop; [done|].
  intros [= <-]. by eapply process_loop_fault.
Qed.

End RewriteMore.

Section Structure.
Import Libc Cols Hts AnnoVep Spec Text.

Lemma free_of_app (c : ascii) (a b : string) :
  free_of c (a +:+ b) ↔ free_of c a ∧ free_of c b.
Proof.
  induction a as [|x a IH].
  - change (EmptyString +:+ b) with b. split; [done|tauto].
  - change (String x a +:+ b) with (String x (a +:+ b)).
    rewrite !free_of_cons, IH. tauto.
Qed.

(** A delimiter in the line ends the spans before it and starts those
    after it. *)
Lemma split_app (d : ascii) (a b : string) :
  split d (a +:+ String d b) = split d a ++ split d b.
Proof.
  induction a as [|x a IH].
  - change (EmptyString +:+ String d b) with (String d b).
    cbn [split]. by rewrite Ascii.eqb_refl.
  - change (String x a +:+ String d b) with (String x (a +:+ String d b)).
    cbn [split]. rewrite IH.
    destruct (Ascii.eqb x d); [done|].
    destruct (split d a) as [|t ts] eqn:E; [by apply split_not_nil in E|].
    done.
Qed.

Lemma split_free (d : ascii) (a : string) :
  free_of d a → split d a = [a].
Proof.
  induction a as [|x a IH]; [done|].
  intros [Hx Ha]%free_of_cons. cbn [split].
  destruct (Ascii.eqb_spec x d); [congruence|]. by rewrite IH.
Qed.

(** Split on commas, the rewritten field gives back the transcripts, each
    with its pipe and its value, when these hold no comma. *)
Lemma split_rewritten (il : list item) (cnt : Z) (ts : list string) :
  ts ≠ [] →
  Forall (λ t, free_of "," t ∧ free_of "," (appended_value il cnt t)) ts →
  split "," (rewritten il cnt ts) =
    (λ t, t +:+ "|" +:+ appended_value il cnt t) <$> ts.
Proof.
  induction ts as [|t ts IH]; [done|]. intros _ Hfree.
  apply Forall_cons in Hfree as [[Ht Hv] Hfree].
  assert (free_of "," (t +:+ "|" +:+ appended_value il cnt t)) as Hft.
  { apply free_of_app. split; [done|]. apply free_of_app. done. }
  cbn [rewritten fmap list_fmap]. destruct ts as [|t' ts].
  - fold (strcat (appended_value il cnt t) EmptyString).
    rewrite strcat_empty_r. by apply split_free.
  - set (v := appended_value il cnt t) in *.
    set (rest := rewritten il cnt (t' :: ts)) in *.
    replace (t +:+ "|" +:+ v +:+ "," +:+ rest)
      with ((t +:+ "|" +:+ v) +:+ String "," rest).
    2:{ fold (strcat "," rest). fold (strcat v (strcat "," rest)).
        fold (strcat "|" (strcat v (strcat "," rest))).
        fold (strcat t (strcat "|" (strcat v (strcat "," rest)))).
        fold (strcat "|" v). fold (strcat t (strcat "|" v)).
        fold (strcat (strcat t (strcat "|" v)) (String "," rest)).
        by rewrite !strcat_assoc. }
    rewrite split_app, (split_free _ _ Hft). cbn [app]. f_equal.
    by apply IH.
Qed.

(** The rewritten field is longer than the field by one pipe for each
    transcript and by the values appended. *)
Lemma strlen_rewritten (il : list item) (cnt : Z) (ts : list string) :
  ts ≠ [] →
  strlen (rewritten il cnt ts) + 1 =
    sum_list (strlen <$> ts) + length ts + length ts
    + sum_list ((λ t, strlen (appended_value il cnt t)) <$> ts).
Proof.
  induction ts as [|t ts IH]; [done|]. intros _.
  cbn [rewritten fmap list_fmap sum_list sum_list_with length].
  set (v := appended_value il cnt t) in *.
  destruct ts as [|t' ts].
  - fold (strcat v EmptyString). fold (strcat "|" (strcat v EmptyString)).
    fold (strcat t (strcat "|" (strcat v EmptyString))).
    rewrite !strlen_strcat. cbn. unfold strlen, id. lia.
  - specialize (IH ltac:(done)).
    set (rest := rewritten il cnt (t' :: ts)) in *.
    fold (strcat "," rest). fold (strcat v (strcat "," rest)).
    fold (strcat "|" (strcat v (strcat "," rest))).
    fold (strcat t (strcat "|" (strcat v (strcat "," rest)))).
    rewrite !strlen_strcat.
    cbn [fmap list_fmap sum_list sum_list_with length] in IH |- *.
    cbn [strlen String.length]. unfold id in *.
    change (String.length rest) with (strlen rest). lia.
Qed.

End Structure.

(** ** Further properties of the table and its comparator *)

Section TableProperties.
Import Libc Cols Hts AnnoVep Spec Examples Text Runs.

(** X1 ([cmp], lines 36-40): on entries whose keys hold no NUL byte, [cmp]
    looks at the keys only and orders them: an entry compares equal to
    itself, swapping the arguments negates the result, the result is 0
    exactly when the keys are equal, and "at most 0" is transitive. *)
Theorem cmp_orders_keys (a b c : item) :
  free_of nul (key a) → free_of nul (key b) →
  cmp a a = 0%Z ∧
  cmp b a = (- cmp a b)%Z ∧
  (cmp a b = 0%Z ↔ key a = key b) ∧
  ((cmp a b <= 0)%Z → (cmp b c <= 0)%Z → (cmp a c <= 0)%Z).
Proof.
  intros Ha Hb. unfold cmp. repeat split.
  - apply strcmp_refl.
  - apply strcmp_swap.
  - by apply strcmp_zero.
  - intros ->. apply strcmp_refl.
  - by apply strcmp_trans.
Qed.

(** X1 on the entries (B, 2), (B, 9) and (C, 3). *)
Lemma cmp_orders_keys_witness :
  cmp {| key := "B"; value := "2" |} {| key := "B"; value := "2" |} = 0%Z ∧
  cmp {| key := "B"; value := "9" |} {| key := "B"; value := "2" |}
    = (- cmp {| key := "B"; value := "2" |} {| key := "B"; value := "9" |})%Z ∧
  (cmp {| key := "B"; value := "2" |} {| key := "B"; value := "9" |} = 0%Z
   ↔ "B" = "B") ∧
  ((cmp {| key := "B"; value := "2" |} {| key := "B"; value := "9" |} <= 0)%Z
   → (cmp {| key := "B"; value := "9" |} {| key := "C"; value := "3" |}
      <= 0)%Z
   → (cmp {| key := "B"; value := "2" |} {| key := "C"; value := "3" |}
      <= 0)%Z).
Proof.
  apply (cmp_orders_keys {| key := "B"; value := "2" |}
           {| key := "B"; value := "9" |} {| key := "C"; value := "3" |});
    reflexivity.
Defined.

(** X2 ([process], lines 165-168, with [cmp]): whatever the table, sorted
    or not, an entry that the search of [process] returns is an entry of
    the table whose key compares equal to the key sub-field, and is that
    sub-field when neither holds a NUL byte. *)
Theorem lookup_returns_matching_entry (il : list item) (nmemb : nat)
    (gene_id : string) (found : item) :
  bsearch {| key := gene_id; value := EmptyString |} il nmemb cmp
    = Some found →
  found ∈ il ∧
  strcmp gene_id (key found) = 0%Z ∧
  (free_of nul gene_id → free_of nul (key found) → key found = gene_id).
Proof.
  intros Hb. split; [by eapply bsearch_loop_elem|].
  apply bsearch_loop_match in Hb. cbn in Hb.
  split; [done|]. intros H1 H2. symmetry. by apply strcmp_zero.
Qed.

(** X2 on the sorted table A, B, C and the key B. *)
Lemma lookup_returns_matching_entry_witness :
  {| key := "B"; value := "2" |} ∈ table_sorted ∧
  strcmp "B" "B" = 0%Z ∧
  (free_of nul "B" → free_of nul "B" → "B" = "B").
Proof.
  apply (lookup_returns_matching_entry table_sorted 3 "B"
           {| key := "B"; value := "2" |}).
  reflexivity.
Defined.

(** X3 ([process], line 166, with [cmp]): on a table in key order whose
    keys hold no NUL byte, searched over its full length, the search of
    [process] finds every key that the table holds: it returns an entry
    with that key. *)
Theorem lookup_finds_key_in_sorted_table (il : list item)
    (gene_id : string) (p : item) :
  Forall (λ it, free_of nul (key it)) il →
  free_of nul gene_id →
  sorted_by_key il →
  p ∈ il →
  key p = gene_id →
  ∃ found,
    bsearch {| key := gene_id; value := EmptyString |} il (length il) cmp
      = Some found ∧
    found ∈ il ∧ key found = gene_id.
Proof.
  intros Hnul Hk Hsorted Hp Hkey.
  apply list_elem_of_lookup in Hp as [j Hj].
  destruct (bsearch_loop_finds il {| key := gene_id; value := EmptyString |}
              (S (length il)) 0 (length il)) as [found Hfound];
    try done; try lia.
  { exists j, p. split; [|split; [done|]].
    - apply lookup_lt_Some in Hj. lia.
    - unfold cmp. cbn. rewrite Hkey. apply strcmp_refl. }
  exists found. split; [done|].
  pose proof (bsearch_loop_elem _ _ _ _ _ _ _ Hfound) as Hin.
  apply bsearch_loop_match in Hfound. cbn in Hfound.
  split; [done|]. symmetry. apply strcmp_zero; [done| |done].
  rewrite Forall_forall in Hnul. by apply Hnul.
Qed.

Lemma table_sorted_in_order : sorted_by_key table_sorted.
Proof.
  intros [|[|[|i]]] a b Ha Hb; cbn in Ha, Hb; try done;
    injection Ha as <-; injection Hb as <-; by vm_compute.
Qed.

(** X3 on the sorted table A, B, C and the key B. *)
Lemma lookup_finds_key_in_sorted_table_witness :
  ∃ found,
    bsearch {| key := "B"; value := EmptyString |} table_sorted 3 cmp
      = Some found ∧
    found ∈ table_sorted ∧ key found = "B".
Proof.
  apply (lookup_finds_key_in_sorted_table table_sorted "B"
           {| key := "B"; value := "2" |}).
  - repeat constructor.
  - reflexivity.
  - apply table_sorted_in_order.
  - do 2 constructor.
  - reflexivity.
Defined.

End TableProperties.

(** ** Further properties of the table load *)

Section LoadProperties.
Import Libc Cols Hts AnnoVep Spec Examples Text Runs.

(** X4 ([parse_file], lines 57-72): no key and no value of the table holds
    a tab or a newline, nor any byte that does not occur in the mapping
    file (a file without NUL bytes gives keys and values without them). *)
Theorem table_entries_hold_no_separator (w : world) (filename fp : string) :
  fopen w filename = Some fp →
  Forall (λ it, ∀ s, s = key it ∨ s = value it →
            free_of tab s ∧ free_of newline s ∧
            ∀ c, free_of c fp → free_of c s)
    (parse_file w filename []).2.
Proof.
  intros Hfp. rewrite (parse_file_opened _ _ _ _ Hfp). cbn [snd].
  apply Forall_forall. intros it Hit s Hs. by eapply usable_rows_clean.
Qed.

(** X4 on the file with the rows C, B, A. *)
Lemma table_entries_hold_no_separator_witness :
  Forall (λ it, ∀ s, s = key it ∨ s = value it →
            free_of tab s ∧ free_of newline s ∧
            ∀ c, free_of c file_unsorted → free_of c s)
    (parse_file (world_of file_unsorted true) "map.tsv" []).2.
Proof.
  apply (table_entries_hold_no_separator (world_of file_unsorted true)
           "map.tsv" file_unsorted).
  reflexivity.
Defined.

(** X5 ([parse_file], lines 46-49 and 63-71): whatever lines are read,
    the count is the number of entries stored, it never exceeds the
    allocated capacity (every store at [nrecords - 1] is inside the array),
    and the capacity is the least multiple of 1000, at least 1000, that
    holds the entries. *)
Theorem table_capacity_holds_entries (lines : list string) :
  let '(alloc, nrecords, il) :=
    foldl parse_line (alloc_steps, 0%Z, []) lines in
  nrecords = Z.of_nat (length il) ∧
  (nrecords <= alloc)%Z ∧
  alloc = (1000 * Z.max 1 ((nrecords + 999) / 1000))%Z.
Proof.
  pose proof (parse_lines_alloc lines alloc_steps 0 []) as Halloc.
  destruct (parse_lines_usable_rows lines alloc_steps 0 []) as [a Hrows].
  rewrite Hrows in Halloc |- *.
  destruct Halloc as [H1 H2]; [unfold alloc_steps; lia|done|].
  cbn [app]. split; [lia|]. split; [lia|done].
Qed.

(** X6 ([parse_file], lines 57-72): lines are parsed one by one, so the
    table of a file made of a newline-terminated part followed by a second
    part is the table of the first part followed by the table of the
    second, and the counts add up. *)
Theorem table_of_concatenated_files (w : world) (fa fb fab a b : string)
    (il : list item) :
  fopen w fa = Some (a +:+ String newline EmptyString) →
  fopen w fb = Some b →
  fopen w fab = Some (a +:+ String newline b) →
  (parse_file w fab il).2 = (parse_file w fa il).2 ++ (parse_file w fb il).2 ∧
  (parse_file w fab il).1
    = ((parse_file w fa il).1 + (parse_file w fb il).1)%Z.
Proof.
  intros Ha Hb Hab.
  rewrite (parse_file_opened _ _ _ _ Ha), (parse_file_opened _ _ _ _ Hb),
    (parse_file_opened _ _ _ _ Hab).
  cbn [fst snd]. rewrite usable_rows_app, length_app. split; [done|lia].
Qed.

(** X6 on the files a.tsv (row A), b.tsv (row B) and ab.tsv (both). *)
Lemma table_of_concatenated_files_witness :
  (parse_file world_parts "ab.tsv" []).2
    = (parse_file world_parts "a.tsv" []).2
      ++ (parse_file world_parts "b.tsv" []).2 ∧
  (parse_file world_parts "ab.tsv" []).1
    = ((parse_file world_parts "a.tsv" []).1
       + (parse_file world_parts "b.tsv" []).1)%Z.
Proof.
  apply (table_of_concatenated_files world_parts "a.tsv" "b.tsv" "ab.tsv"
           ("A" +:+ String tab "1") (row "B" "2") []); reflexivity.
Defined.

End LoadProperties.

(** ** Further properties of the startup *)

Section StartupProperties.
Import Libc Cols Hts AnnoVep Spec Examples Text Domain Runs.

(** X7 ([init], lines 100-115, with [parse_file]): when the mapping file
    is a text file (no NUL byte, every line within the 1024 bytes of the
    line buffer) and [init] returns 0, at least two plugin arguments were
    given, the file named by the second could be opened, the table is the
    list of its usable rows in the order of its lines, [nitems] is the
    length of the table and at least 1, and [header] is set. *)
Theorem init_success_loads_table (w : world) (argv : list string)
    (hin hout : bcf_hdr_t) (g0 g : globals) :
  (∀ fp, fopen w (nth 2 argv EmptyString) = Some fp → text_file fp) →
  init w argv hin hout g0 = (0%Z, g) →
  3 ≤ length argv ∧
  (∃ fp, fopen w (nth 2 argv EmptyString) = Some fp ∧
         items g = usable_rows fp) ∧
  nitems g = Z.of_nat (length (items g)) ∧
  (1 <= nitems g)%Z ∧
  is_Some (header g).
Proof.
  intros _. unfold init.
  destruct (Z.ltb_spec (Z.of_nat (length argv)) 3); [done|].
  destruct (fopen w (nth 2 argv EmptyString)) as [fp|] eqn:Hfp.
  2:{ rewrite (parse_file_unopened _ _ _ Hfp). done. }
  rewrite (parse_file_opened _ _ _ _ Hfp).
  destruct (Z.ltb_spec (Z.of_nat (length (usable_rows fp))) 1); [done|].
  destruct (bcf_hdr_get_hrec hout "CSQ") as [hrec|].
  2:{ intros [= <-]. cbn. split; [lia|]. split; [eauto|]. split; [done|].
      split; [lia|eauto]. }
  destruct (0 <=? _)%Z.
  2:{ intros [= <-]. cbn. split; [lia|]. split; [eauto|]. split; [done|].
      split; [lia|eauto]. }
  destruct (hrec !! _) as [[k desc]|].
  2:{ intros [= <-]. cbn. split; [lia|]. split; [eauto|]. split; [done|].
      split; [lia|eauto]. }
  destruct (realloc_ok w _); [|done].
  intros [= <-]. cbn. split; [lia|]. split; [eauto|]. split; [done|].
  split; [lia|eauto].
Qed.

(** X7 on the world whose map.tsv holds the row GENE1, ANNOT. *)
Lemma init_success_loads_table_witness :
  3 ≤ length argv3 ∧
  (∃ fp, fopen (world_of file_gene1 true) (nth 2 argv3 EmptyString)
           = Some fp ∧
         items (started file_gene1) = usable_rows fp) ∧
  nitems (started file_gene1)
    = Z.of_nat (length (items (started file_gene1))) ∧
  (1 <= nitems (started file_gene1))%Z ∧
  is_Some (header (started file_gene1)).
Proof.
  apply (init_success_loads_table (world_of file_gene1 true) argv3
           hdr_vep hdr_vep globals0 (started file_gene1)).
  - intros fp [= <-]. split; [reflexivity|].
    vm_compute. repeat constructor.
  - by vm_compute.
Defined.

(** X8 ([init], lines 120-130): the three [strcat] calls fill the block
    that [realloc] was asked for exactly, terminator included.  When the
    description holds the marker "Format: " its last byte (the closing
    quote) is replaced by the pipe, the tag and a quote; when it does not,
    the same three are appended after the whole description. *)
Theorem annotate_description (desc new_tag : string) :
  strlen (annotate desc new_tag) + 1
    = strlen (strip_format desc) + strlen new_tag + 3 ∧
  (∀ body c,
     desc = body +:+ String c EmptyString →
     strstr desc "Format: " ≠ None →
     annotate desc new_tag
       = body +:+ "|" +:+ new_tag +:+ String dquote EmptyString) ∧
  (strstr desc "Format: " = None →
   annotate desc new_tag
     = desc +:+ "|" +:+ new_tag +:+ String dquote EmptyString).
Proof.
  unfold annotate, append_tag. split; [|split].
  - rewrite !strlen_strcat. cbn. lia.
  - intros body c -> Hmarker.
    destruct (strstr _ "Format: ") as [p|] eqn:Hp; [|done].
    rewrite (strip_format_marker _ _ _ Hp).
    by rewrite !strcat_assoc.
  - intros Hnone. unfold strip_format. rewrite Hnone.
    by rewrite !strcat_assoc.
Qed.

(** X8 on a VEP description and the tag TAG. *)
Lemma annotate_description_witness :
  annotate (quoted "Consequence annotations. Format: Allele|Gene") "TAG"
    = String dquote "Consequence annotations. Format: Allele|Gene" +:+ "|"
      +:+ "TAG" +:+ String dquote EmptyString.
Proof.
  apply (proj1 (proj2 (annotate_description
           (quoted "Consequence annotations. Format: Allele|Gene") "TAG"))
           (String dquote "Consequence annotations. Format: Allele|Gene")
           dquote).
  - reflexivity.
  - by vm_compute.
Defined.




End StartupProperties.

(** ** Further properties of the per-record hook *)

Section RecordProperties.
Import Libc Cols Hts AnnoVep Spec Examples Text Runs.

(** What is appended for a transcript is nothing or a value of the table. *)
Lemma appended_value_of_table (il : list item) (cnt : Z) (t : string) :
  appended_value il cnt t = EmptyString ∨
  ∃ found, found ∈ il ∧ appended_value il cnt t = value found.
Proof.
  unfold appended_value.
  destruct (split "|" t !! 4) as [gene_id|]; [|by left].
  destruct (0 <? strlen gene_id); [|by left].
  destruct (bsearch _ _ _ _) as [found|] eqn:Hb; [|by left].
  right. exists found. split; [|done]. by eapply bsearch_loop_elem.
Qed.

(** X11 ([process], lines 148-174): for a record that carries a non-empty
    CSQ field of fewer than 2^21 transcripts, under a header that defines
    CSQ and with appended values of at most 1022 bytes: when every
    transcript has at least five pipe-delimited sub-fields, [process]
    returns the record with the rewritten field written back; when some
    transcript has fewer, [process] reads [cols_csq->off[4]] past the spans
    of the split, and what the program does from there on is not defined. *)
Theorem process_needs_five_subfields (g : globals) (hdr : bcf_hdr_t)
    (rec : bcf1_t) (field : string) :
  header g = Some hdr →
  is_Some (hrec_info hdr !! "CSQ") →
  info rec !! "CSQ" = Some field →
  field ≠ EmptyString →
  (Z.of_nat (length (split "," field)) < max_transcripts)%Z →
  appended_values_within 1022 (items g) (nitems g) field →
  (Forall (λ t, 5 ≤ length (split "|" t)) (split "," field) →
   ∃ g', process g rec =
           Done (bcf_update_info_string hdr rec "CSQ"
                   (rewritten (items g) (nitems g) (split "," field)), g')) ∧
  (¬ Forall (λ t, 5 ≤ length (split "|" t)) (split "," field) →
   process g rec = Fault SpanOutOfRange).
Proof.
  intros Hhdr [hrec Hdef] Hcsq Hne Hfew Hval.
  unfold process, bcf_get_info_string. rewrite Hhdr, Hdef, Hcsq.
  assert (0 < Z.of_nat (strlen field))%Z as Hpos
    by (destruct field; [done|cbn; lia]).
  destruct (Z.ltb_spec 0 (Z.of_nat (strlen field))); [|lia].
  split.
  - intros Hfive.
    destruct (rewrite_csq_renders (items g) (nitems g) field (cols_tr g)
                (cols_csq g) Hfew Hfive Hval) as [csq ->].
    cbn. eauto.
  - intros Hshort.
    destruct (rewrite_csq _ _ _ _ _) as [r|f] eqn:Hrun.
    + apply rewrite_csq_done in Hrun as [Hfive _]. by destruct Hshort.
    + cbn. f_equal.
      destruct (rewrite_csq_fault _ _ _ _ _ _ Hrun) as [->| ->]; [done|].
      by apply rewrite_csq_fits in Hrun.
Qed.

(** X11 on the started plugin and the record with the field
    T1|x|y|GENE1|z,T2|a|b||c. *)
Lemma process_needs_five_subfields_witness :
  ∃ g', process (started file_z) rec_two =
          Done (bcf_update_info_string hdr_tagged rec_two "CSQ"
                  "T1|x|y|GENE1|z|ANNOT,T2|a|b||c|", g').
Proof.
  refine (proj1 (process_needs_five_subfields (started file_z) hdr_tagged
                   rec_two "T1|x|y|GENE1|z,T2|a|b||c" _ _ _ _ _ _) _).
  - by vm_compute.
  - by eexists.
  - reflexivity.
  - done.
  - by vm_compute.
  - apply table_values_within.
    apply Forall_cons; split; [cbn; lia|constructor].
  - vm_compute. repeat constructor.
Defined.

(** X12 ([process], lines 155-173): when the rewrite completes, its
    output is longer than the field by one byte (the pipe) for each
    transcript and by the bytes of the values appended. *)
Theorem rewrite_output_length (il : list item) (cnt : Z) (field : string)
    (tr0 csq0 : option cols_t) (r : string * cols_t * option cols_t) :
  rewrite_csq il cnt field tr0 csq0 = Done r →
  strlen r.1.1 =
    strlen field + length (split "," field)
    + sum_list ((λ t, strlen (appended_value il cnt t)) <$> split "," field).
Proof.
  intros Hrun. apply rewrite_csq_done in Hrun as [_ ->].
  pose proof (strlen_rewritten il cnt (split "," field)
                (split_not_nil _ _)) as Hlen.
  pose proof (split_length_sum "," field) as Hsum. lia.
Qed.

(** X12 on the field T1|x|y|GENE1|z,T2|a|b||c and the table z -> ANNOT. *)
Lemma rewrite_output_length_witness :
  strlen "T1|x|y|GENE1|z|ANNOT,T2|a|b||c|" =
    strlen "T1|x|y|GENE1|z,T2|a|b||c"
    + length (split "," "T1|x|y|GENE1|z,T2|a|b||c")
    + sum_list ((λ t, strlen (appended_value
                                [{| key := "z"; value := "ANNOT" |}] 1 t))
                  <$> split "," "T1|x|y|GENE1|z,T2|a|b||c").
Proof.
  apply (rewrite_output_length [{| key := "z"; value := "ANNOT" |}] 1
           "T1|x|y|GENE1|z,T2|a|b||c" None None
           ("T1|x|y|GENE1|z|ANNOT,T2|a|b||c|",
            cols_split "T1|x|y|GENE1|z,T2|a|b||c" None ",",
            Some (cols_split "T2|a|b||c" None "|"))).
  by vm_compute.
Defined.

(** X13 ([process], lines 158-173): when the rewrite completes and no
    value of the table holds a comma or a pipe, the output has the
    transcripts of the field, in their order, each with its sub-fields
    unchanged and exactly one sub-field more, the value appended for it. *)
Theorem rewrite_appends_one_subfield (il : list item) (cnt : Z)
    (field : string) (tr0 csq0 : option cols_t)
    (r : string * cols_t * option cols_t) :
  rewrite_csq il cnt field tr0 csq0 = Done r →
  Forall (λ it, free_of "," (value it) ∧ free_of "|" (value it)) il →
  split "|" <$> split "," r.1.1 =
    (λ t, split "|" t ++ [appended_value il cnt t]) <$> split "," field.
Proof.
  intros Hrun Hil. apply rewrite_csq_done in Hrun as [_ ->].
  assert (∀ t, free_of "," (appended_value il cnt t) ∧
               free_of "|" (appended_value il cnt t)) as Hfree.
  { intros t. destruct (appended_value_of_table il cnt t)
      as [->|(found & Hin & ->)]; [done|].
    rewrite Forall_forall in Hil. by apply Hil. }
  rewrite split_rewritten.
  - rewrite <- list_fmap_compose. apply list_fmap_ext.
    intros i t _. unfold compose.
    change (t +:+ "|" +:+ appended_value il cnt t)
      with (t +:+ String "|" (appended_value il cnt t)).
    rewrite split_app.
    by rewrite (split_free _ _ (proj2 (Hfree t))).
  - apply split_not_nil.
  - apply Forall_forall. intros t Ht. split; [|apply Hfree].
    by destruct (split_spans_free _ _ _ Ht).
Qed.

(** X13 on the field T1|x|y|GENE1|z,T2|a|b||c and the table z -> ANNOT. *)
Lemma rewrite_appends_one_subfield_witness :
  split "|" <$> split "," "T1|x|y|GENE1|z|ANNOT,T2|a|b||c|" =
    (λ t, split "|" t
          ++ [appended_value [{| key := "z"; value := "ANNOT" |}] 1 t])
      <$> split "," "T1|x|y|GENE1|z,T2|a|b||c".
Proof.
  apply (rewrite_appends_one_subfield [{| key := "z"; value := "ANNOT" |}] 1
           "T1|x|y|GENE1|z,T2|a|b||c" None None
           ("T1|x|y|GENE1|z|ANNOT,T2|a|b||c|",
            cols_split "T1|x|y|GENE1|z,T2|a|b||c" None ",",
            Some (cols_split "T2|a|b||c" None "|"))).
  - by vm_compute.
  - apply Forall_cons; split; [by vm_compute|constructor].
Defined.


(** X14 ([init], [parse_file] and [process], lines 109 and 163-168): after
    a successful [init] on a mapping file without NUL bytes whose usable
    rows are in key order, the value appended for a transcript with a
    non-empty key sub-field is the value of a row with that key when the
    file has one, and nothing when it has none. *)
Theorem sorted_file_annotates_by_key (w : world) (argv : list string)
    (hin hout : bcf_hdr_t) (g0 g : globals) (fp t gene_id : string) :
  init w argv hin hout g0 = (0%Z, g) →
  fopen w (nth 2 argv EmptyString) = Some fp →
  free_of nul fp →
  sorted_by_key (usable_rows fp) →
  split "|" t !! 4 = Some gene_id →
  gene_id ≠ EmptyString →
  free_of nul gene_id →
  ((∃ p, p ∈ usable_rows fp ∧ key p = gene_id) →
   ∃ found, found ∈ usable_rows fp ∧ key found = gene_id ∧
     appended_value (items g) (nitems g) t = value found) ∧
  ((∀ p, p ∈ usable_rows fp → key p ≠ gene_id) →
   appended_value (items g) (nitems g) t = EmptyString).
Proof.
  intros Hinit Hfp Hnul Hsorted Hg Hne Hgnul.
  assert (items g = usable_rows fp ∧
          nitems g = Z.of_nat (length (usable_rows fp))) as [Hitems Hcnt].
  { revert Hinit. unfold init.
    destruct (Z.of_nat (length argv) <? 3)%Z; [done|].
    rewrite (parse_file_opened _ _ _ _ Hfp).
    destruct (_ <? 1)%Z; [done|].
    destruct (bcf_hdr_get_hrec hout "CSQ") as [hrec|];
      [|by intros [= <-]].
    destruct (0 <=? _)%Z; [|by intros [= <-]].
    destruct (hrec !! _) as [[k desc]|]; [|by intros [= <-]].
    destruct (realloc_ok w _); [|done]. by intros [= <-]. }
  assert (Forall (λ it, free_of nul (key it)) (usable_rows fp)) as Hkeys.
  { apply Forall_forall. intros it Hit.
    by apply (usable_rows_clean fp it (key it) Hit (or_introl eq_refl)). }
  unfold appended_value. rewrite Hg, Hitems, Hcnt, Nat2Z.id.
  destruct (Nat.ltb_spec 0 (strlen gene_id)) as [_|Hlen].
  2:{ destruct gene_id; [done|cbn in Hlen; lia]. }
  split.
  - intros (p & Hp & Hkey).
    destruct (bsearch_loop_finds (usable_rows fp)
                {| key := gene_id; value := EmptyString |}
                (S (length (usable_rows fp))) 0 (length (usable_rows fp)))
      as [found Hfound]; try done; try lia.
    { apply list_elem_of_lookup in Hp as [j Hj]. exists j, p.
      split; [apply lookup_lt_Some in Hj; lia|]. split; [done|].
      unfold cmp. cbn. rewrite Hkey. apply strcmp_refl. }
    unfold bsearch. rewrite Hfound. exists found.
    pose proof (bsearch_loop_elem _ _ _ _ _ _ _ Hfound) as Hin.
    apply bsearch_loop_match in Hfound. cbn in Hfound.
    split; [done|]. split; [|done]. symmetry.
    apply strcmp_zero; [done| |done].
    rewrite Forall_forall in Hkeys. by apply Hkeys.
  - intros Hnone.
    destruct (bsearch _ _ _ _) as [found|] eqn:Hfound; [|done].
    pose proof (bsearch_loop_elem _ _ _ _ _ _ _ Hfound) as Hin.
    apply bsearch_loop_match in Hfound. cbn in Hfound.
    destruct (Hnone found Hin). symmetry.
    apply strcmp_zero; [done| |done].
    rewrite Forall_forall in Hkeys. by apply Hkeys.
Qed.

Lemma file_sorted_in_order : sorted_by_key (usable_rows file_sorted).
Proof.
  intros [|[|[|i]]] a b Ha Hb; vm_compute in Ha, Hb; try done;
    injection Ha as <-; injection Hb as <-; by vm_compute.
Qed.

(** X14 on the file with the rows A, B, C and the transcript T|x|y|w|B. *)
Lemma sorted_file_annotates_by_key_witness :
  ∃ found, found ∈ usable_rows file_sorted ∧ key found = "B" ∧
    appended_value (items (started file_sorted))
      (nitems (started file_sorted)) "T|x|y|w|B" = value found.
Proof.
  refine (proj1 (sorted_file_annotates_by_key (world_of file_sorted true)
                   argv3 hdr_vep hdr_vep globals0 (started file_sorted)
                   file_sorted "T|x|y|w|B" "B" _ _ _ _ _ _ _) _).
  - by vm_compute.
  - reflexivity.
  - reflexivity.
  - apply file_sorted_in_order.
  - reflexivity.
  - done.
  - reflexivity.
  - exists {| key := "B"; value := "2" |}. split; [|done].
    vm_compute. do 2 constructor.
Defined.

End RecordProperties.

(** ** The output buffer of line 155 *)

Section OutputBuffer.
Import Libc Cols Hts AnnoVep Spec Examples Text Domain.

Lemma split_blanks (k : nat) :
  split "," (blanks k) = replicate (S k) "||||".
Proof.
  induction k as [|k IH]; [done|].
  change (blanks (S k))
    with (String "|" (String "|" (String "|" (String "|"
            (String "," (blanks k)))))).
  cbn [split]. rewrite IH. done.
Qed.

Lemma strlen_blanks (k : nat) : strlen (blanks k) = 5 * k + 4.
Proof.
  induction k as [|k IH]; [done|].
  change (blanks (S k))
    with (String "|" (String "|" (String "|" (String "|"
            (String "," (blanks k)))))).
  unfold strlen in *. cbn [String.length]. lia.
Qed.

(** When [calloc] gave no byte, the first [strcat] is out of bounds. *)
Lemma rewrite_csq_no_buffer (il : list item) (cnt : Z) (field : string)
    (tr0 csq0 : option cols_t) :
  buffer_size (strlen field) (length (split "," field)) = 0 →
  rewrite_csq il cnt field tr0 csq0 = Fault BufferOverflow.
Proof.
  intros Hsize. unfold rewrite_csq.
  change (n (cols_split field tr0 ",")) with (length (split "," field)).
  rewrite Hsize.
  assert (∃ t, read_off (cols_split field tr0 ",") 0 = Done t) as [t Ht].
  { unfold read_off. cbn [cols_split n off].
    destruct (split "," field) as [|t ts] eqn:E;
      [by apply split_not_nil in E|].
    by exists t. }
  destruct (length (split "," field)) as [|m] eqn:Hm.
  { apply read_off_done in Ht as [Hlt _]. cbn [cols_split n] in Hlt. lia. }
  cbn [process_loop]. unfold process_transcript. rewrite Ht.
  cbn [mbind outcome_bind].
  rewrite strcat_buf_overflows by lia. done.
Qed.

Lemma field_2_21_transcripts :
  Z.of_nat (length (split "," field_2_21)) = max_transcripts.
Proof.
  unfold field_2_21. rewrite split_blanks, length_replicate.
  rewrite Nat2Z.inj_succ, Z2Nat.id by lia. done.
Qed.

Lemma field_2_21_no_buffer :
  buffer_size (strlen field_2_21) (length (split "," field_2_21)) = 0.
Proof.
  unfold buffer_size. rewrite field_2_21_transcripts.
  unfold field_2_21. rewrite strlen_blanks.
  rewrite Nat2Z.inj_add, Nat2Z.inj_mul, Z2Nat.id by lia.
  by vm_compute.
Qed.

Lemma field_2_22_transcripts :
  Z.of_nat (length (split "," field_2_22)) = (2 * max_transcripts)%Z.
Proof.
  unfold field_2_22. rewrite split_blanks, length_replicate.
  rewrite Nat2Z.inj_succ, Z2Nat.id by lia. done.
Qed.

Lemma field_2_22_no_margin :
  buffer_size (strlen field_2_22) (length (split "," field_2_22))
    = strlen field_2_22.
Proof.
  unfold buffer_size. rewrite field_2_22_transcripts.
  change (int_wrap (1024 * (2 * max_transcripts))) with 0%Z.
  rewrite Z.add_0_r, Nat2Z.id.
  destruct (Z.leb_spec 0 (Z.of_nat (strlen field_2_22))); [done|lia].
Qed.

(** A turn of the loop that completes leaves the text and its terminator
    within the buffer. *)
Lemma process_transcript_within (il : list item) (cnt : Z) (tr : cols_t)
    (size i : nat) (buf : string) (csq : option cols_t)
    (r : string * option cols_t) :
  process_transcript il cnt tr size i buf csq = Done r →
  strlen r.1 + 1 ≤ size.
Proof.
  unfold process_transcript, strcat_buf.
  destruct (read_off tr i) as [t|]; [|done]. cbn [mbind outcome_bind].
  destruct (Nat.leb_spec (strlen buf + strlen t + 1) size); [|done].
  cbn [mbind outcome_bind].
  destruct (Nat.leb_spec (strlen (strcat buf t) + strlen "|" + 1) size)
    as [H1|]; [|done].
  cbn [mbind outcome_bind].
  destruct (read_off _ 4) as [gene_id|]; [|done].
  cbn [mbind outcome_bind].
  set (s1 := strcat (strcat buf t) "|").
  assert (strlen s1 + 1 ≤ size) as Hs1.
  { unfold s1. rewrite strlen_strcat. cbn [strlen String.length] in *. lia. }
  assert (∀ s2,
    (if 0 <? strlen gene_id
     then match bsearch {| key := gene_id; value := EmptyString |} il
                  (Z.to_nat cnt) cmp with
          | Some found =>
              if strlen s1 + strlen (value found) + 1 <=? size
              then Done (strcat s1 (value found))
              else Fault BufferOverflow
          | None => mret s1
          end
     else mret s1) = Done s2 → strlen s2 + 1 ≤ size) as Hval.
  { intros s2. destruct (0 <? strlen gene_id); [|by intros [= <-]].
    destruct (bsearch _ _ _ _) as [found|]; [|by intros [= <-]].
    destruct (Nat.leb_spec (strlen s1 + strlen (value found) + 1) size);
      [|done].
    intros [= <-]. rewrite strlen_strcat. lia. }
  destruct (if 0 <? strlen gene_id then _ else _) as [s2|]; [|done].
  specialize (Hval s2 eq_refl). cbn [mbind outcome_bind].
  destruct (_ <? _)%Z.
  - destruct (Nat.leb_spec (strlen s2 + strlen "," + 1) size); [|done].
    cbn [mbind outcome_bind]. intros [= <-]. cbn [fst].
    rewrite strlen_strcat. lia.
  - intros [= <-]. done.
Qed.

Lemma process_loop_within (il : list item) (cnt : Z) (tr : cols_t)
    (size todo i : nat) (buf : string) (csq : option cols_t)
    (r : string * option cols_t) :
  0 < todo →
  process_loop il cnt tr size todo i buf csq = Done r →
  strlen r.1 + 1 ≤ size.
Proof.
  revert i buf csq. induction todo as [|todo IH]; intros i buf csq; [lia|].
  intros _. cbn [process_loop].
  destruct (process_transcript il cnt tr size i buf csq) as [r1|] eqn:H1;
    [|done].
  cbn [mbind outcome_bind]. apply process_transcript_within in H1.
  destruct todo as [|todo'].
  - cbn [process_loop]. by intros [= <-].
  - apply IH. lia.
Qed.

(** A rewrite that completes has written the field, one pipe for each
    transcript and the terminator: the buffer has at least that many
    bytes. *)
Lemma rewrite_csq_done_within (il : list item) (cnt : Z) (field : string)
    (tr0 csq0 : option cols_t) (r : string * cols_t * option cols_t) :
  rewrite_csq il cnt field tr0 csq0 = Done r →
  strlen field + length (split "," field) + 1
    ≤ buffer_size (strlen field) (length (split "," field)).
Proof.
  intros Hrun. pose proof (rewrite_csq_done _ _ _ _ _ _ Hrun) as [_ Hr].
  revert Hrun. unfold rewrite_csq.
  change (n (cols_split field tr0 ",")) with (length (split "," field)).
  destruct (process_loop _ _ _ _ _ _ _ _) as [r1|] eqn:Hloop; [|done].
  cbn [mbind outcome_bind]. intros [= <-]. cbn [fst] in Hr.
  apply process_loop_within in Hloop.
  2:{ destruct (split "," field) eqn:E; [by apply split_not_nil in E|].
      cbn. lia. }
  rewrite Hr in Hloop.
  pose proof (strlen_rewritten il cnt (split "," field)
                (split_not_nil _ _)) as Hlen.
  pose proof (split_length_sum "," field) as Hsum. lia.
Qed.

(** On transcripts of five sub-fields the rewrite reads no span out of
    range. *)
Lemma process_transcript_in_range (il : list item) (cnt : Z) (tr : cols_t)
    (size i : nat) (buf : string) (csq : option cols_t) (t : string) :
  off tr !! i = Some t → i < n tr →
  5 ≤ length (split "|" t) →
  process_transcript il cnt tr size i buf csq ≠ Fault SpanOutOfRange.
Proof.
  intros Ht Hi Hfive. unfold process_transcript, read_off.
  destruct (Nat.ltb_spec i (n tr)); [|lia]. rewrite Ht.
  cbn [mbind outcome_bind]. unfold strcat_buf.
  destruct (_ <=? _); [|done]. cbn [mbind outcome_bind].
  destruct (_ <=? _); [|done]. cbn [mbind outcome_bind cols_split n off].
  destruct (Nat.ltb_spec 4 (length (split "|" t))); [|lia].
  destruct (split "|" t !! 4) as [gene_id|] eqn:Hg.
  2:{ apply lookup_ge_None in Hg. lia. }
  cbn [mbind outcome_bind].
  destruct (0 <? strlen gene_id).
  - destruct (bsearch _ _ _ _) as [found|].
    + destruct (_ <=? _); [|done]. cbn [mbind outcome_bind].
      destruct (_ <? _)%Z; [|done]. by destruct (_ <=? _).
    + cbn [mbind outcome_bind mret outcome_ret].
      destruct (_ <? _)%Z; [|done]. by destruct (_ <=? _).
  - cbn [mbind outcome_bind mret outcome_ret].
    destruct (_ <? _)%Z; [|done]. by destruct (_ <=? _).
Qed.

Lemma process_loop_in_range (il : list item) (cnt : Z) (tr : cols_t)
    (size todo i : nat) (buf : string) (csq : option cols_t) :
  n tr = length (off tr) →
  i + todo = n tr →
  Forall (λ t, 5 ≤ length (split "|" t)) (off tr) →
  process_loop il cnt tr size todo i buf csq ≠ Fault SpanOutOfRange.
Proof.
  intros Hn. revert i buf csq.
  induction todo as [|todo IH]; intros i buf csq Htodo Hfive; [done|].
  cbn [process_loop].
  destruct (off tr !! i) as [t|] eqn:Ht.
  2:{ apply lookup_ge_None in Ht. lia. }
  pose proof (process_transcript_in_range il cnt tr size i buf csq t Ht
                ltac:(lia)) as Hstep.
  destruct (process_transcript il cnt tr size i buf csq) as [r1|f].
  - cbn [mbind outcome_bind]. apply IH; [lia|done].
  - cbn [mbind outcome_bind]. intros [= ->]. apply Hstep; [|done].
    rewrite Forall_forall in Hfive. apply Hfive.
    by eapply list_elem_of_lookup_2.
Qed.

(** So a field of such transcripts whose buffer lacks the byte of a pipe
    or of the terminator is written past the end of the buffer. *)
Lemma rewrite_csq_overflows (il : list item) (cnt : Z) (field : string)
    (tr0 csq0 : option cols_t) :
  Forall (λ t, 5 ≤ length (split "|" t)) (split "," field) →
  buffer_size (strlen field) (length (split "," field))
    ≤ strlen field + length (split "," field) →
  rewrite_csq il cnt field tr0 csq0 = Fault BufferOverflow.
Proof.
  intros Hfive Hsize.
  destruct (rewrite_csq il cnt field tr0 csq0) as [r|f] eqn:Hrun.
  - apply rewrite_csq_done_within in Hrun. lia.
  - f_equal. destruct (rewrite_csq_fault _ _ _ _ _ _ Hrun) as [->|]; [|done].
    revert Hrun. unfold rewrite_csq.
    pose proof (process_loop_in_range il cnt (cols_split field tr0 ",")
      (buffer_size (strlen field) (n (cols_split field tr0 ",")))
      (n (cols_split field tr0 ",")) 0 EmptyString csq0 eq_refl eq_refl
      Hfive) as Hloop.
    destruct (process_loop _ _ _ _ _ _ _ _); [done|].
    cbn [mbind outcome_bind]. by intros [= ->].
Qed.

Lemma blanks_append_nothing (il : list item) (cnt : Z) (k : nat) :
  appended_values_within 1022 il cnt (blanks k).
Proof.
  intros t Ht. rewrite split_blanks in Ht.
  apply elem_of_replicate in Ht as [-> _]. cbn. lia.
Qed.

(** [process] on a record that carries a non-empty field, under a header
    that defines it, fails where the rewrite of the field fails. *)
Lemma process_rewrite_fault (g : globals) (hdr : bcf_hdr_t) (rec : bcf1_t)
    (field : string) (f : fault) :
  header g = Some hdr →
  is_Some (hrec_info hdr !! "CSQ") →
  info rec !! "CSQ" = Some field →
  field ≠ EmptyString →
  rewrite_csq (items g) (nitems g) field (cols_tr g) (cols_csq g) = Fault f →
  process g rec = Fault f.
Proof.
  intros Hhdr [hrec Hdef] Hcsq Hne Hrun.
  unfold process, bcf_get_info_string. rewrite Hhdr, Hdef, Hcsq.
  assert (0 < Z.of_nat (strlen field))%Z as Hpos
    by (destruct field; [done|cbn; lia]).
  destruct (Z.ltb_spec 0 (Z.of_nat (strlen field))); [|lia].
  by rewrite Hrun.
Qed.

Lemma blanks_nonempty (k : nat) : blanks k ≠ EmptyString.
Proof. by destruct k. Qed.

(** C10 (for every record, every write into the output buffer stays
    within it when the values appended have at most 1022 bytes).  The
    margin of 1024 bytes per transcript is the [int] product
    [1024 * cols_tr->n] of line 155, which leaves the range of [int] from
    2^21 transcripts on.  On the field of 2^21 transcripts of five empty
    sub-fields the request passes [PTRDIFF_MAX]: [calloc] returns NULL and
    the first [strcat] writes through it.  On the field of 2^22 such
    transcripts the product is 0: the buffer has the [strlen(csq_str)]
    bytes of the field and no more, and the pipes that the loop adds run
    past its end.  Neither run appends a value, whatever the table. *)
Theorem C10_int_product_drops_margin :
  (Z.of_nat (length (split "," field_2_21)) = max_transcripts ∧
   buffer_size (strlen field_2_21) (length (split "," field_2_21)) = 0 ∧
   ∀ il cnt tr0 csq0,
     appended_values_within 1022 il cnt field_2_21 ∧
     rewrite_csq il cnt field_2_21 tr0 csq0 = Fault BufferOverflow) ∧
  (Z.of_nat (length (split "," field_2_22)) = (2 * max_transcripts)%Z ∧
   buffer_size (strlen field_2_22) (length (split "," field_2_22))
     = strlen field_2_22 ∧
   ∀ il cnt tr0 csq0,
     appended_values_within 1022 il cnt field_2_22 ∧
     rewrite_csq il cnt field_2_22 tr0 csq0 = Fault BufferOverflow) ∧
  (∀ il,
     process (globals_with hdr_vep il) (rec_with field_2_21)
       = Fault BufferOverflow ∧
     process (globals_with hdr_vep il) (rec_with field_2_22)
       = Fault BufferOverflow).
Proof.
  assert (∀ k, Forall (λ t, 5 ≤ length (split "|" t)) (split "," (blanks k)))
    as Hfive.
  { intros k. rewrite split_blanks. apply Forall_forall. intros t Ht.
    apply elem_of_replicate in Ht as [-> _]. cbn. lia. }
  assert (∀ il cnt tr0 csq0,
            rewrite_csq il cnt field_2_21 tr0 csq0 = Fault BufferOverflow)
    as H21.
  { intros. apply rewrite_csq_no_buffer, field_2_21_no_buffer. }
  assert (∀ il cnt tr0 csq0,
            rewrite_csq il cnt field_2_22 tr0 csq0 = Fault BufferOverflow)
    as H22.
  { intros. apply rewrite_csq_overflows; [apply Hfive|].
    rewrite field_2_22_no_margin. lia. }
  split; [|split].
  - split; [apply field_2_21_transcripts|].
    split; [apply field_2_21_no_buffer|].
    intros. split; [apply blanks_append_nothing|apply H21].
  - split; [apply field_2_22_transcripts|].
    split; [apply field_2_22_no_margin|].
    intros. split; [apply blanks_append_nothing|apply H22].
  - intros il. split.
    + apply (process_rewrite_fault _ hdr_vep _ field_2_21);
        [done|by eexists|apply lookup_singleton_eq|apply blanks_nonempty|].
      apply H21.
    + apply (process_rewrite_fault _ hdr_vep _ field_2_22);
        [done|by eexists|apply lookup_singleton_eq|apply blanks_nonempty|].
      apply H22.
Qed.

(** X15 ([process], lines 155-173): for a record whose CSQ field has
    fewer than 2^21 transcripts, when every value appended has at most 1022
    bytes, no [strcat] into the buffer of line 155, terminator included,
    goes past its end.  The bound on the values is tight: with a table
    value of 1023 bytes a record of one transcript overflows the buffer. *)
Theorem output_buffer_bound_within_int :
  (∀ g rec,
     (∀ field, info rec !! "CSQ" = Some field →
        (Z.of_nat (length (split "," field)) < max_transcripts)%Z ∧
        appended_values_within 1022 (items g) (nitems g) field) →
     process g rec ≠ Fault BufferOverflow) ∧
  ((Z.of_nat (length (split "," "a|b|c|d|G")) < max_transcripts)%Z ∧
   appended_values_within 1023 [{| key := "G"; value := long_value |}] 1
     "a|b|c|d|G" ∧
   process (globals_with hdr_vep [{| key := "G"; value := long_value |}])
     (rec_with "a|b|c|d|G") = Fault BufferOverflow).
Proof.
  split.
  - intros g rec Hval. unfold process.
    destruct (header g) as [hdr|]; [|done].
    destruct (bcf_get_info_string _ _ _ _ _) as [[lcsq dst] ndst] eqn:Hget.
    destruct (Z.ltb_spec 0 lcsq) as [Hpos|_]; [|done].
    apply get_info_positive in Hget; [|done].
    destruct (Hval dst Hget) as [Hfew Hwithin].
    pose proof (rewrite_csq_fits (items g) (nitems g) dst (cols_tr g)
                  (cols_csq g) Hfew Hwithin) as Hfit.
    destruct (rewrite_csq _ _ _ _ _) as [[[s tr] csq]|f]; [done|].
    cbn. congruence.
  - split; [by vm_compute|]. split; [|by vm_compute].
    apply table_values_within. vm_compute. repeat constructor.
Qed.

(** X15 on the started plugin with the table GENE1 -> ANNOT. *)
Lemma output_buffer_bound_within_int_witness :
  process (started file_gene1) (rec_of (Some "T1|x|y|GENE1|z,T2|a|b||c"))
    ≠ Fault BufferOverflow.
Proof.
  apply (proj1 output_buffer_bound_within_int).
  intros field [= <-]. split; [by vm_compute|].
  apply table_values_within.
  apply Forall_cons; split; [cbn; lia|constructor].
Defined.

End OutputBuffer.
